(** * Voice-call coordinator of the debate rooms

    A shallow embedding of the two React hooks that drive the peer-to-peer
    audio mesh, [src/hooks/useVoiceCall.ts] and [src/hooks/useWebRTC.ts],
    and the properties of the specification that concern them.

    Conventions of the embedding.
    - React state ([useState]) and refs ([useRef]) are the fields of one
      [State] record; a handler is a function from a state to the next state
      and the list of signaling messages it published.
    - The browser objects the hook only holds references to
      ([RTCPeerConnection], the local [MediaStream]) live in two stores
      ([conns], [streams]); a reference is the index of the object in its
      store, so that an object reached through two paths is one object.
    - Every promise of the media transport ([createOffer],
      [setRemoteDescription], [getUserMedia], ...) is settled by an
      [Oracle] given with the event: the properties hold for all oracles.
    - A handler runs to completion on the state committed by the previous
      event: the [await]s of one handler are not interleaved with another
      handler, and the [peers] a handler closes over is the committed map.
      The one closure that is provably older than the committed state, the
      retry callback of [handlePeerJoin], carries its captured values with
      it ([Closure]). *)

From stdpp Require Import base option list gmap fin_maps strings.

(** ** Data shared by the two hooks *)

(** [type] of a signaling message ([useVoiceCall.ts], l.5). *)
Inductive MessageType := offer | answer | ice_candidate | join | leave.

#[global] Instance MessageType_eq_dec : EqDecision MessageType.
Proof. solve_decision. Defined.

(** The [data] field is [any] in the source. The payloads the hooks put
    there are a session description, a candidate, [{ isAnchor }] of a join
    and [{}] of a leave; all of them are objects, hence truthy. *)
Inductive Data :=
| Description (sdp : string)
| Candidate (candidate : string)
| JoinInfo (anchor : bool)
| Empty.

#[global] Instance Data_eq_dec : EqDecision Data.
Proof. solve_decision. Defined.

(** [RTCPeerConnectionState]. *)
Inductive ConnectionState :=
| cs_new | cs_connecting | cs_connected | cs_disconnected | cs_failed | cs_closed.

#[global] Instance ConnectionState_eq_dec : EqDecision ConnectionState.
Proof. solve_decision. Defined.

(** The part of an [RTCPeerConnection] that the hooks read or change.
    [owner] is the [peerId] its callbacks close over, [senders] counts the
    local tracks given to [addTrack], [addedCandidates] lists the arguments
    of the [addIceCandidate] calls in call order. *)
Record RTCPeerConnection := {
  owner : string;
  senders : nat;
  localDescription : option Data;
  remoteDescription : option Data;
  addedCandidates : list Data;
  connectionState : ConnectionState
}.

(** A track of the local capture stream. *)
Record Track := { audio : bool; enabled : bool; stopped : bool }.

(** A [MediaStream] is the list of its tracks. *)
Abbreviation MediaStream := (list Track).

(** *** The transport store *)

Definition newConnection (peerId : string) (tracks : nat) : RTCPeerConnection :=
  {| owner := peerId; senders := tracks; localDescription := None;
     remoteDescription := None; addedCandidates := [];
     connectionState := cs_new |}.

(** [connection.close()]. *)
Definition close (c : RTCPeerConnection) : RTCPeerConnection :=
  {| owner := owner c; senders := senders c;
     localDescription := localDescription c;
     remoteDescription := remoteDescription c;
     addedCandidates := addedCandidates c;
     connectionState := cs_closed |}.

(** A successful [connection.setRemoteDescription(d)]. *)
Definition setRemoteDescription (d : Data) (c : RTCPeerConnection) : RTCPeerConnection :=
  {| owner := owner c; senders := senders c;
     localDescription := localDescription c;
     remoteDescription := Some d;
     addedCandidates := addedCandidates c;
     connectionState := connectionState c |}.

(** A successful [connection.setLocalDescription(d)]. *)
Definition setLocalDescription (d : Data) (c : RTCPeerConnection) : RTCPeerConnection :=
  {| owner := owner c; senders := senders c;
     localDescription := Some d;
     remoteDescription := remoteDescription c;
     addedCandidates := addedCandidates c;
     connectionState := connectionState c |}.

(** [connection.addIceCandidate(d)]. Both callers catch and log a rejected
    promise and go on, so the outcome of the call changes nothing the hook
    can see; the store records the call. *)
Definition addIceCandidate (d : Data) (c : RTCPeerConnection) : RTCPeerConnection :=
  {| owner := owner c; senders := senders c;
     localDescription := localDescription c;
     remoteDescription := remoteDescription c;
     addedCandidates := addedCandidates c ++ [d];
     connectionState := connectionState c |}.

(** The transport reports a new connection state. *)
Definition setConnectionState (s : ConnectionState) (c : RTCPeerConnection) : RTCPeerConnection :=
  {| owner := owner c; senders := senders c;
     localDescription := localDescription c;
     remoteDescription := remoteDescription c;
     addedCandidates := addedCandidates c;
     connectionState := s |}.

(** [connection.addTrack] for [n] tracks. *)
Definition addTracks (n : nat) (c : RTCPeerConnection) : RTCPeerConnection :=
  {| owner := owner c; senders := senders c + n;
     localDescription := localDescription c;
     remoteDescription := remoteDescription c;
     addedCandidates := addedCandidates c;
     connectionState := connectionState c |}.

Definition isOpen (c : RTCPeerConnection) : bool :=
  bool_decide (connectionState c ≠ cs_closed).

(** [track.stop()]. *)
Definition stop (t : Track) : Track :=
  {| audio := audio t; enabled := enabled t; stopped := true |}.

(** [track.enabled = !track.enabled]. *)
Definition flipEnabled (t : Track) : Track :=
  {| audio := audio t; enabled := negb (enabled t); stopped := stopped t |}.

(** Index of the first audio track: [stream.getAudioTracks()[0]]. *)
Fixpoint firstAudioTrack (s : MediaStream) : option nat :=
  match s with
  | [] => None
  | t :: s' => if audio t then Some 0 else S <$> firstAudioTrack s'
  end.

(** The outcome of the promises awaited while one event is handled. *)
Record Oracle := {
  (** [setRemoteDescription] resolves *)
  remoteDescriptionOk : bool;
  (** [createOffer]/[createAnswer] followed by [setLocalDescription]:
      the description that became [connection.localDescription], or [None]
      when either promise is rejected *)
  createdDescription : option Data;
  (** [navigator.mediaDevices.getUserMedia]: the stream, or [None] when
      the promise is rejected *)
  userMedia : option MediaStream
}.

(** ** The hook [useVoiceCall] *)

Module VoiceCall.

(** [SignalingMessage] ([useVoiceCall.ts], l.4-10). *)
Record SignalingMessage := {
  type : MessageType;
  data : Data;
  from : string;
  to : option string;
  room_id : string
}.

(** [PeerConnection] (l.12-17): the session the hook keeps for a remote
    peer. [connection] is the reference of its transport object in
    [conns], [stream] the remote stream of the last [ontrack]. *)
Record PeerConnection := {
  id : string;
  connection : nat;
  stream : option nat;
  iceCandidatesQueue : list Data
}.

(** The arguments of the hook. *)
Record Config := { roomId : string; userId : string; isAnchor : bool }.

(** What the callback of [handlePeerJoin] captured in the render that
    created it: the [peers] map and the [localStream] reference. *)
Record Closure := {
  c_peers : gmap string PeerConnection;
  c_localStream : option nat
}.

(** Pending [setTimeout] callbacks that change the state: the retry of
    [handlePeerJoin] (l.290) and the check five seconds after a
    [disconnected] report (l.210). *)
Inductive Timer :=
| RetryJoin (cl : Closure) (peerId : string) (retryCount : nat)
| DisconnectedCheck (c : nat).

Record State := {
  isInCall : bool;
  isMuted : bool;
  localStream : option nat;
  peers : gmap string PeerConnection;
  isConnecting : bool;
  error : string;
  (** [remoteAudiosRef.current]: the [srcObject] of the audio element of
      each peer *)
  remoteAudios : gmap string nat;
  conns : list RTCPeerConnection;
  streams : list MediaStream;
  timers : list Timer
}.

Definition initial : State :=
  {| isInCall := false; isMuted := false; localStream := None; peers := ∅;
     isConnecting := false; error := ""; remoteAudios := ∅;
     conns := []; streams := []; timers := [] |}.

(** Field updates. *)
Definition setIsInCall (b : bool) (st : State) : State :=
  {| isInCall := b; isMuted := isMuted st; localStream := localStream st;
     peers := peers st; isConnecting := isConnecting st; error := error st;
     remoteAudios := remoteAudios st; conns := conns st;
     streams := streams st; timers := timers st |}.

Definition setIsMuted (b : bool) (st : State) : State :=
  {| isInCall := isInCall st; isMuted := b; localStream := localStream st;
     peers := peers st; isConnecting := isConnecting st; error := error st;
     remoteAudios := remoteAudios st; conns := conns st;
     streams := streams st; timers := timers st |}.

Definition setLocalStream (s : option nat) (st : State) : State :=
  {| isInCall := isInCall st; isMuted := isMuted st; localStream := s;
     peers := peers st; isConnecting := isConnecting st; error := error st;
     remoteAudios := remoteAudios st; conns := conns st;
     streams := streams st; timers := timers st |}.

Definition setPeers (f : gmap string PeerConnection → gmap string PeerConnection)
    (st : State) : State :=
  {| isInCall := isInCall st; isMuted := isMuted st; localStream := localStream st;
     peers := f (peers st); isConnecting := isConnecting st; error := error st;
     remoteAudios := remoteAudios st; conns := conns st;
     streams := streams st; timers := timers st |}.

Definition setIsConnecting (b : bool) (st : State) : State :=
  {| isInCall := isInCall st; isMuted := isMuted st; localStream := localStream st;
     peers := peers st; isConnecting := b; error := error st;
     remoteAudios := remoteAudios st; conns := conns st;
     streams := streams st; timers := timers st |}.

Definition setError (e : string) (st : State) : State :=
  {| isInCall := isInCall st; isMuted := isMuted st; localStream := localStream st;
     peers := peers st; isConnecting := isConnecting st; error := e;
     remoteAudios := remoteAudios st; conns := conns st;
     streams := streams st; timers := timers st |}.

Definition setRemoteAudios (f : gmap string nat → gmap string nat) (st : State) : State :=
  {| isInCall := isInCall st; isMuted := isMuted st; localStream := localStream st;
     peers := peers st; isConnecting := isConnecting st; error := error st;
     remoteAudios := f (remoteAudios st); conns := conns st;
     streams := streams st; timers := timers st |}.

Definition setConns (f : list RTCPeerConnection → list RTCPeerConnection)
    (st : State) : State :=
  {| isInCall := isInCall st; isMuted := isMuted st; localStream := localStream st;
     peers := peers st; isConnecting := isConnecting st; error := error st;
     remoteAudios := remoteAudios st; conns := f (conns st);
     streams := streams st; timers := timers st |}.

Definition setStreams (f : list MediaStream → list MediaStream) (st : State) : State :=
  {| isInCall := isInCall st; isMuted := isMuted st; localStream := localStream st;
     peers := peers st; isConnecting := isConnecting st; error := error st;
     remoteAudios := remoteAudios st; conns := conns st;
     streams := f (streams st); timers := timers st |}.

Definition setTimers (f : list Timer → list Timer) (st : State) : State :=
  {| isInCall := isInCall st; isMuted := isMuted st; localStream := localStream st;
     peers := peers st; isConnecting := isConnecting st; error := error st;
     remoteAudios := remoteAudios st; conns := conns st;
     streams := streams st; timers := f (timers st) |}.

(** The closure a callback created in the committed render captures. *)
Definition committed (st : State) : Closure :=
  {| c_peers := peers st; c_localStream := localStream st |}.

(** The value the hook returns as [connectedPeers] (l.675),
    [Array.from(peers.keys())]: the keys of the map, each once. The array
    of the source lists them in insertion order, the list here in the
    order of the finite map. *)
Definition connectedPeers (st : State) : list string :=
  (map_to_list (peers st)).*1.

Section Handlers.

Variable cfg : Config.

(** [signalingChannel.current] is set by the effect of l.448-460, which
    returns early when [roomId] or [userId] is empty. *)
Definition signalingChannel : bool :=
  bool_decide (roomId cfg ≠ "") && bool_decide (userId cfg ≠ "").

(** [sendSignalingMessage] (l.67-79): the messages put on the channel. *)
Definition sendSignalingMessage (ty : MessageType) (d : Data) (target : option string)
    : list SignalingMessage :=
  if signalingChannel
  then [ {| type := ty; data := d; from := userId cfg; to := target;
            room_id := roomId cfg |} ]
  else [].

(** [handlePeerLeave] (l.82-104). *)
Definition handlePeerLeave (peerId : string) (st : State) : State :=
  let st1 :=
    match peers st !! peerId with
    | Some peer =>
        setPeers (delete peerId) (setConns (alter close (connection peer)) st)
    | None => st
    end in
  setRemoteAudios (delete peerId) st1.

(** [createPeerConnection] (l.107-239): a new transport object, with the
    tracks of the captured local stream, added to the store; its handle is
    returned. The callbacks it installs are the transport events of
    [step]. *)
Definition createPeerConnection (captured : option nat) (peerId : string) (st : State)
    : State * nat :=
  let tracks :=
    match captured with
    | Some r => length (default [] (streams st !! r))
    | None => 0
    end in
  (setConns (λ cs, cs ++ [newConnection peerId tracks]) st, length (conns st)).

(** [handlePeerJoin] (l.242-297), with the closure it runs in. *)
Definition handlePeerJoin (cl : Closure) (peerId : string) (retryCount : nat)
    (o : Oracle) (st : State) : State * list SignalingMessage :=
  if bool_decide (is_Some (c_peers cl !! peerId)) then (st, [])
  else
    let '(st1, c) := createPeerConnection (c_localStream cl) peerId st in
    let newPeer := {| id := peerId; connection := c; stream := None;
                      iceCandidatesQueue := [] |} in
    let st2 := setPeers (insert peerId newPeer) st1 in
    if isAnchor cfg && bool_decide (is_Some (c_localStream cl)) then
      match createdDescription o with
      | Some d =>
          (setConns (alter (setLocalDescription d) c) st2,
           sendSignalingMessage offer d (Some peerId))
      | None =>
          if bool_decide (retryCount < 2) then
            (setTimers (λ ts, ts ++ [RetryJoin cl peerId (retryCount + 1)])
               (handlePeerLeave peerId st2), [])
          else (handlePeerLeave peerId st2, [])
      end
    else (st2, []).

(** The loop of l.317-327 and l.376-386: the queue of the session is
    shifted until it is empty, each candidate given to the connection (a
    queued candidate is an object, so the test [if (candidate)] holds). *)
Fixpoint drainQueue (queue : list Data) (c : RTCPeerConnection) : RTCPeerConnection :=
  match queue with
  | [] => c
  | candidate :: rest => drainQueue rest (addIceCandidate candidate c)
  end.

(** The state after the loop has run on the session of [peerId]. *)
Definition processQueued (peerId : string) (st : State) : State :=
  match peers st !! peerId with
  | Some peer =>
      setPeers (insert peerId {| id := id peer; connection := connection peer;
                                 stream := stream peer;
                                 iceCandidatesQueue := [] |})
        (setConns (alter (drainQueue (iceCandidatesQueue peer)) (connection peer)) st)
  | None => st
  end.

(** [handleOffer] (l.300-360). *)
Definition handleOffer (peerId : string) (d : Data) (o : Oracle) (st : State)
    : State * list SignalingMessage :=
  if bool_decide (is_Some (peers st !! peerId)) then (st, [])
  else
    let '(st1, c) := createPeerConnection (localStream st) peerId st in
    let newPeer := {| id := peerId; connection := c; stream := None;
                      iceCandidatesQueue := [] |} in
    let st2 := setPeers (insert peerId newPeer) st1 in
    if remoteDescriptionOk o then
      let st3 := setConns (alter (setRemoteDescription d) c) st2 in
      let st4 := processQueued peerId st3 in
      match createdDescription o with
      | Some a =>
          (setConns (alter (setLocalDescription a) c) st4,
           sendSignalingMessage answer a (Some peerId))
      | None => (handlePeerLeave peerId st4, [])
      end
    else (handlePeerLeave peerId st2, []).

(** [handleAnswer] (l.363-391). *)
Definition handleAnswer (peerId : string) (d : Data) (o : Oracle) (st : State)
    : State * list SignalingMessage :=
  match peers st !! peerId with
  | None => (st, [])
  | Some peer =>
      if remoteDescriptionOk o then
        (processQueued peerId
           (setConns (alter (setRemoteDescription d) (connection peer)) st), [])
      else (handlePeerLeave peerId st, [])
  end.

(** [connection.remoteDescription] read through a handle; a handle that
    is not in the store reads as unset. *)
Definition remoteDescriptionOf (c : nat) (st : State) : option Data :=
  conns st !! c ≫= remoteDescription.

(** [handleIceCandidate] (l.394-415). *)
Definition handleIceCandidate (peerId : string) (d : Data) (st : State)
    : State * list SignalingMessage :=
  match peers st !! peerId with
  | None => (st, [])
  | Some peer =>
      if bool_decide (is_Some (remoteDescriptionOf (connection peer) st)) then
        (setConns (alter (addIceCandidate d) (connection peer)) st, [])
      else
        (setPeers (insert peerId {| id := id peer; connection := connection peer;
                                    stream := stream peer;
                                    iceCandidatesQueue := iceCandidatesQueue peer ++ [d] |})
           st, [])
  end.

(** [handleSignalingMessage] (l.418-445). None of the handlers lets an
    exception escape, so the [catch] of l.441 is never entered. *)
Definition handleSignalingMessage (m : SignalingMessage) (o : Oracle) (st : State)
    : State * list SignalingMessage :=
  if bool_decide (from m = userId cfg) then (st, [])
  else
    match type m with
    | join => handlePeerJoin (committed st) (from m) 0 o st
    | offer => handleOffer (from m) (data m) o st
    | answer => handleAnswer (from m) (data m) o st
    | ice_candidate => handleIceCandidate (from m) (data m) st
    | leave => (handlePeerLeave (from m) st, [])
    end.

(** [joinCall] (l.463-512). For an audience member nothing in the [try]
    block can throw, so its [catch] branch of l.507 is not reachable. *)
Definition joinCall (o : Oracle) (st : State) : State * list SignalingMessage :=
  if isInCall st || isConnecting st then (st, [])
  else
    let st1 := setError "" (setIsConnecting true st) in
    if isAnchor cfg then
      match userMedia o with
      | Some s =>
          let st2 := setLocalStream (Some (length (streams st1)))
                       (setStreams (λ ss, ss ++ [s]) st1) in
          (setIsConnecting false (setIsInCall true st2),
           sendSignalingMessage join (JoinInfo (isAnchor cfg)) None)
      | None =>
          (setIsConnecting false
             (setError "Failed to access microphone. Please check your permissions." st1),
           [])
      end
    else
      (setIsConnecting false (setIsInCall true st1),
       sendSignalingMessage join (JoinInfo (isAnchor cfg)) None).

(** [close()] on each of a list of handles. *)
Definition closeAll (handles : list nat) (cs : list RTCPeerConnection)
    : list RTCPeerConnection :=
  foldr (λ c acc, alter close c acc) cs handles.

(** [leaveCall] (l.515-551). *)
Definition leaveCall (st : State) : State * list SignalingMessage :=
  if negb (isInCall st) then (st, [])
  else
    let st1 := setConns (closeAll (connection <$> (map_to_list (peers st)).*2)) st in
    let st2 := setPeers (λ _, ∅) st1 in
    let st3 :=
      match localStream st with
      | Some r => setLocalStream None (setStreams (alter (fmap stop) r) st2)
      | None => st2
      end in
    let st4 := setRemoteAudios (λ _, ∅) st3 in
    (setIsMuted false (setIsInCall false st4), sendSignalingMessage leave Empty None).

(** [toggleMute] (l.599-607). *)
Definition toggleMute (st : State) : State :=
  match localStream st with
  | Some r =>
      if isAnchor cfg then
        let s := default [] (streams st !! r) in
        match firstAudioTrack s ≫= λ i, pair i <$> s !! i with
        | Some (i, audioTrack) =>
            let audioTrack' := flipEnabled audioTrack in
            setIsMuted (negb (enabled audioTrack'))
              (setStreams (alter (λ tracks, <[i:=audioTrack']> tracks) r) st)
        | None => st
        end
      else st
  | None => st
  end.

(** [connection.onicecandidate] (l.181-189) of the connection [c], for
    an event that carries a candidate. *)
Definition onicecandidate (c : RTCPeerConnection) (d : Data) : list SignalingMessage :=
  sendSignalingMessage ice_candidate d (Some (owner c)).

(** [connection.ontrack] (l.118-178). The audio element of the peer is
    created when missing and bound to the stream; the attempts to start
    playback change nothing here. *)
Definition ontrack (c : RTCPeerConnection) (remoteStream : nat) (st : State) : State :=
  let peerId := owner c in
  setPeers (λ prev,
      match prev !! peerId with
      | Some peer => <[peerId := {| id := id peer; connection := connection peer;
                                    stream := Some remoteStream;
                                    iceCandidatesQueue := iceCandidatesQueue peer |}]> prev
      | None => prev
      end)
    (setRemoteAudios (insert peerId remoteStream) st).

(** [connection.onconnectionstatechange] (l.192-217) of the connection
    with handle [h], read after the transport has changed its state;
    [restartIce] tells whether the connection has a [restartIce] method. *)
Definition onconnectionstatechange (h : nat) (c : RTCPeerConnection) (restartIce : bool)
    (st : State) : State :=
  match connectionState c with
  | cs_failed => if restartIce then st else handlePeerLeave (owner c) st
  | cs_disconnected => setTimers (λ ts, ts ++ [DisconnectedCheck h]) st
  | _ => st
  end.

(** A pending timer fires. *)
Definition fire (t : Timer) (o : Oracle) (st : State) : State * list SignalingMessage :=
  match t with
  | RetryJoin cl peerId retryCount => handlePeerJoin cl peerId retryCount o st
  | DisconnectedCheck h =>
      match conns st !! h with
      | Some c =>
          if bool_decide (connectionState c = cs_disconnected)
          then (handlePeerLeave (owner c) st, [])
          else (st, [])
      | None => (st, [])
      end
  end.

(** What the hook reacts to: a message delivered by the channel, a timer,
    the three operations the page calls, and the callbacks of the transport
    for a connection of the store. *)
Inductive Event :=
| Signaling (m : SignalingMessage) (o : Oracle)
| TimerFired (i : nat) (o : Oracle)
| JoinCall (o : Oracle)
| LeaveCall
| ToggleMute
| IceCandidateEvent (h : nat) (d : Data)
| TrackEvent (h : nat) (remoteStream : nat)
| ConnectionStateChange (h : nat) (s : ConnectionState) (restartIce : bool).

(** One event. A closed connection raises no event, and the transport
    never reports [closed] by itself. *)
Definition step (e : Event) (st : State) : State * list SignalingMessage :=
  match e with
  | Signaling m o => handleSignalingMessage m o st
  | TimerFired i o =>
      match timers st !! i with
      | Some t => fire t o (setTimers (delete i) st)
      | None => (st, [])
      end
  | JoinCall o => joinCall o st
  | LeaveCall => leaveCall st
  | ToggleMute => (toggleMute st, [])
  | IceCandidateEvent h d =>
      match conns st !! h with
      | Some c => if isOpen c then (st, onicecandidate c d) else (st, [])
      | None => (st, [])
      end
  | TrackEvent h remoteStream =>
      match conns st !! h with
      | Some c => if isOpen c then (ontrack c remoteStream st, []) else (st, [])
      | None => (st, [])
      end
  | ConnectionStateChange h s restartIce =>
      match conns st !! h with
      | Some c =>
          if isOpen c && bool_decide (s ≠ cs_closed) then
            (onconnectionstatechange h (setConnectionState s c) restartIce
               (setConns (alter (setConnectionState s) h) st), [])
          else (st, [])
      | None => (st, [])
      end
  end.

(** A sequence of events; the messages published are collected in order. *)
Fixpoint run (es : list Event) (st : State) : State * list SignalingMessage :=
  match es with
  | [] => (st, [])
  | e :: es' =>
      let '(st1, out1) := step e st in
      let '(st2, out2) := run es' st1 in
      (st2, out1 ++ out2)
  end.

End Handlers.

End VoiceCall.

(** ** The hook [useWebRTC]

    The older hook, in which every caller offers to the other anchors it is
    given. The signaling messages are rows of the table
    [signaling_messages]. *)

Module WebRTC.

(** The columns of a row the hook writes or reads ([useWebRTC.ts], l.4-12);
    [id] and [timestamp] are given by the table. *)
Record SignalingMessage := {
  room_id : string;
  from_user : string;
  to_user : string;
  type : MessageType;
  data : Data
}.

Record Config := { roomId : string; userId : string }.

Record State := {
  isConnected : bool;
  isConnecting : bool;
  connectedPeers : list string;
  localStream : option nat;
  remoteStreams : gmap string nat;
  isMuted : bool;
  (** [peerConnections.current]: the handle of the connection of a user *)
  peerConnections : gmap string nat;
  (** [signalingSubscription.current]: when set, the [localStream] that
      the callback given to the subscription closes over *)
  signalingSubscription : option (option nat);
  conns : list RTCPeerConnection;
  streams : list MediaStream
}.

Definition initial : State :=
  {| isConnected := false; isConnecting := false; connectedPeers := [];
     localStream := None; remoteStreams := ∅; isMuted := false;
     peerConnections := ∅; signalingSubscription := None;
     conns := []; streams := [] |}.

(** What an operation asks of the table. *)
Inductive Request :=
| Insert (row : SignalingMessage)
| DeleteFrom (room : string) (user : string).

Section Handlers.

Variable cfg : Config.

(** [sendSignalingMessage] (l.91-103). *)
Definition sendSignalingMessage (toUser : string) (ty : MessageType) (d : Data)
    : list Request :=
  [Insert {| room_id := roomId cfg; from_user := userId cfg; to_user := toUser;
             type := ty; data := d |}].

(** [createPeerConnection] (l.43-89): the connection gets the tracks of
    the [localStream] the callback captured and replaces the entry of the
    user in [peerConnections]. *)
Definition createPeerConnection (captured : option nat) (targetUserId : string)
    (st : State) : State * nat :=
  let tracks :=
    match captured with
    | Some r => length (default [] (streams st !! r))
    | None => 0
    end in
  let pc := length (conns st) in
  ({| isConnected := isConnected st; isConnecting := isConnecting st;
      connectedPeers := connectedPeers st; localStream := localStream st;
      remoteStreams := remoteStreams st; isMuted := isMuted st;
      peerConnections := <[targetUserId := pc]> (peerConnections st);
      signalingSubscription := signalingSubscription st;
      conns := conns st ++ [newConnection targetUserId tracks];
      streams := streams st |}, pc).

Definition setConns (f : list RTCPeerConnection → list RTCPeerConnection)
    (st : State) : State :=
  {| isConnected := isConnected st; isConnecting := isConnecting st;
     connectedPeers := connectedPeers st; localStream := localStream st;
     remoteStreams := remoteStreams st; isMuted := isMuted st;
     peerConnections := peerConnections st;
     signalingSubscription := signalingSubscription st;
     conns := f (conns st); streams := streams st |}.

(** [handleSignalingMessage] (l.105-133), in a closure that captured
    the stream reference [captured]. *)
Definition handleSignalingMessage (captured : option nat) (message : SignalingMessage)
    (o : Oracle) (st : State) : State * list Request :=
  let fromUser := from_user message in
  let '(st1, pc) :=
    match peerConnections st !! fromUser with
    | Some pc => (st, pc)
    | None => createPeerConnection captured fromUser st
    end in
  match type message with
  | offer =>
      if remoteDescriptionOk o then
        let st2 := setConns (alter (setRemoteDescription (data message)) pc) st1 in
        match createdDescription o with
        | Some a =>
            (setConns (alter (setLocalDescription a) pc) st2,
             sendSignalingMessage fromUser answer a)
        | None => (st2, [])
        end
      else (st1, [])
  | answer =>
      if remoteDescriptionOk o
      then (setConns (alter (setRemoteDescription (data message)) pc) st1, [])
      else (st1, [])
  | ice_candidate => (setConns (alter (addIceCandidate (data message)) pc) st1, [])
  | _ => (st1, [])
  end.

(** The filter of the subscription (l.161):
    [room_id=eq.${roomId} and to_user=eq.${userId}]. *)
Definition subscribed (message : SignalingMessage) : bool :=
  bool_decide (room_id message = roomId cfg) && bool_decide (to_user message = userId cfg).

(** A row inserted in the table reaches the handler through the
    subscription only. *)
Definition deliver (message : SignalingMessage) (o : Oracle) (st : State)
    : State * list Request :=
  match signalingSubscription st with
  | Some captured =>
      if subscribed message then handleSignalingMessage captured message o st
      else (st, [])
  | None => (st, [])
  end.

(** The loop of [startCall] (l.170-182) over the other anchors, for a
    new stream of [tracks] tracks. [offers] gives, per iteration, the
    description of [createOffer] and [setLocalDescription], [None] (or no
    entry) when one of them is rejected: the exception leaves the loop. The
    last component tells whether the loop ended normally. *)
Fixpoint offerAll (captured : option nat) (tracks : nat) (otherAnchors : list string)
    (offers : list (option Data)) (st : State) : State * list Request * bool :=
  match otherAnchors with
  | [] => (st, [], true)
  | anchorId :: rest =>
      let '(st1, pc) := createPeerConnection captured anchorId st in
      let st2 := setConns (alter (addTracks tracks) pc) st1 in
      match offers with
      | Some d :: offers' =>
          let st3 := setConns (alter (setLocalDescription d) pc) st2 in
          let '(st4, out, ok) := offerAll captured tracks rest offers' st3 in
          (st4, sendSignalingMessage anchorId offer d ++ out, ok)
      | _ => (st2, [], false)
      end
  end.

(** [startCall] (l.135-191). The callbacks it uses and the one it gives
    to the subscription are those of the render it was called in, whose
    [localStream] is the one of [st]. The last component is [false] when
    the function rethrows. *)
Definition startCall (anchorUsers : list string) (o : Oracle) (offers : list (option Data))
    (st : State) : State * list Request * bool :=
  let connecting b s :=
    {| isConnected := isConnected s; isConnecting := b;
       connectedPeers := connectedPeers s; localStream := localStream s;
       remoteStreams := remoteStreams s; isMuted := isMuted s;
       peerConnections := peerConnections s;
       signalingSubscription := signalingSubscription s;
       conns := conns s; streams := streams s |} in
  match userMedia o with
  | None => (connecting false (connecting true st), [], false)
  | Some stream =>
      let st1 :=
        {| isConnected := isConnected st; isConnecting := true;
           connectedPeers := connectedPeers st;
           localStream := Some (length (streams st));
           remoteStreams := remoteStreams st; isMuted := isMuted st;
           peerConnections := peerConnections st;
           signalingSubscription := Some (localStream st);
           conns := conns st; streams := streams st ++ [stream] |} in
      let otherAnchors := filter (λ id, id ≠ userId cfg) anchorUsers in
      let '(st2, out, ok) :=
        offerAll (localStream st) (length stream) otherAnchors offers st1 in
      if ok then
        ({| isConnected := true; isConnecting := false;
            connectedPeers := connectedPeers st2; localStream := localStream st2;
            remoteStreams := remoteStreams st2; isMuted := isMuted st2;
            peerConnections := peerConnections st2;
            signalingSubscription := signalingSubscription st2;
            conns := conns st2; streams := streams st2 |}, out, true)
      else (connecting false st2, out, false)
  end.

(** [endCall] (l.193-224). *)
Definition endCall (st : State) : State * list Request :=
  ({| isConnected := false; isConnecting := false; connectedPeers := [];
      localStream := None; remoteStreams := ∅; isMuted := false;
      peerConnections := ∅; signalingSubscription := None;
      conns := foldr (λ pc acc, alter close pc acc) (conns st)
                 (map_to_list (peerConnections st)).*2;
      streams := match localStream st with
                 | Some r => alter (fmap stop) r (streams st)
                 | None => streams st
                 end |},
   [DeleteFrom (roomId cfg) (userId cfg)]).

(** [toggleMute] (l.226-233): every audio track of the local stream is
    flipped and [isMuted] is negated. *)
Definition flipAudio (t : Track) : Track :=
  if audio t then flipEnabled t else t.

Definition toggleMute (st : State) : State :=
  match localStream st with
  | Some r =>
      {| isConnected := isConnected st; isConnecting := isConnecting st;
         connectedPeers := connectedPeers st; localStream := localStream st;
         remoteStreams := remoteStreams st; isMuted := negb (isMuted st);
         peerConnections := peerConnections st;
         signalingSubscription := signalingSubscription st;
         conns := conns st; streams := alter (fmap flipAudio) r (streams st) |}
  | None => st
  end.

(** [pc.onicecandidate] (l.47-51), for an event that carries a candidate. *)
Definition onicecandidate (c : RTCPeerConnection) (d : Data) : list Request :=
  sendSignalingMessage (owner c) ice_candidate d.

(** [pc.ontrack] (l.54-65). *)
Definition ontrack (c : RTCPeerConnection) (remoteStream : nat) (st : State) : State :=
  let targetUserId := owner c in
  {| isConnected := isConnected st; isConnecting := isConnecting st;
     connectedPeers :=
       if bool_decide (targetUserId ∈ connectedPeers st) then connectedPeers st
       else connectedPeers st ++ [targetUserId];
     localStream := localStream st;
     remoteStreams := <[targetUserId := remoteStream]> (remoteStreams st);
     isMuted := isMuted st; peerConnections := peerConnections st;
     signalingSubscription := signalingSubscription st;
     conns := conns st; streams := streams st |}.

(** [pc.onconnectionstatechange] (l.68-78), read after the transport has
    changed the state of the connection. *)
Definition onconnectionstatechange (c : RTCPeerConnection) (st : State) : State :=
  let targetUserId := owner c in
  if bool_decide (connectionState c = cs_disconnected ∨ connectionState c = cs_failed) then
    {| isConnected := isConnected st; isConnecting := isConnecting st;
       connectedPeers := filter (λ id, id ≠ targetUserId) (connectedPeers st);
       localStream := localStream st;
       remoteStreams := delete targetUserId (remoteStreams st);
       isMuted := isMuted st; peerConnections := peerConnections st;
       signalingSubscription := signalingSubscription st;
       conns := conns st; streams := streams st |}
  else st.

(** What the hook reacts to. *)
Inductive Event :=
| Inserted (row : SignalingMessage) (o : Oracle)
| StartCall (anchorUsers : list string) (o : Oracle) (offers : list (option Data))
| EndCall
| ToggleMute
| IceCandidateEvent (h : nat) (d : Data)
| TrackEvent (h : nat) (remoteStream : nat)
| ConnectionStateChange (h : nat) (s : ConnectionState).

(** One event. A closed connection raises no event, and the transport
    never reports [closed] by itself. *)
Definition step (e : Event) (st : State) : State * list Request :=
  match e with
  | Inserted row o => deliver row o st
  | StartCall anchorUsers o offers => (startCall anchorUsers o offers st).1
  | EndCall => endCall st
  | ToggleMute => (toggleMute st, [])
  | IceCandidateEvent h d =>
      match conns st !! h with
      | Some c => if isOpen c then (st, onicecandidate c d) else (st, [])
      | None => (st, [])
      end
  | TrackEvent h remoteStream =>
      match conns st !! h with
      | Some c => if isOpen c then (ontrack c remoteStream st, []) else (st, [])
      | None => (st, [])
      end
  | ConnectionStateChange h s =>
      match conns st !! h with
      | Some c =>
          if isOpen c && bool_decide (s ≠ cs_closed) then
            (onconnectionstatechange (setConnectionState s c)
               (setConns (alter (setConnectionState s) h) st), [])
          else (st, [])
      | None => (st, [])
      end
  end.

Fixpoint run (es : list Event) (st : State) : State * list Request :=
  match es with
  | [] => (st, [])
  | e :: es' =>
      let '(st1, out1) := step e st in
      let '(st2, out2) := run es' st1 in
      (st2, out1 ++ out2)
  end.

End Handlers.

End WebRTC.

(** ** Properties *)

Import VoiceCall.

(** Every session has its connection: the connection of the session of
    [p] is in the store, open and owned by [p]. *)
Definition sessions_open (st : State) : Prop :=
  ∀ p peer, peers st !! p = Some peer →
    id peer = p ∧
    ∃ c, conns st !! connection peer = Some c ∧ owner c = p ∧ isOpen c = true.

(** Every open connection has its session: it is the connection of the
    session of its owner. *)
Definition connections_owned (st : State) : Prop :=
  ∀ h c, conns st !! h = Some c → isOpen c = true →
    ∃ peer, peers st !! owner c = Some peer ∧ connection peer = h.

(** The first of the two, and the second as well when [strict]. *)
Definition sessions_wf (strict : bool) (st : State) : Prop :=
  sessions_open st ∧ (strict = true → connections_owned st).

(** The open connections of the store that belong to the peer [p]. *)
Definition openConnections (p : string) (st : State) : list RTCPeerConnection :=
  filter (λ c, owner c = p ∧ isOpen c = true) (conns st).

(** Events other than a timer. *)
Definition untimed (e : Event) : bool :=
  match e with
  | TimerFired _ _ => false
  | _ => true
  end.

(** The events of a sequence of delivered messages, each with the oracle
    of its handling, and the payloads of the sequence. *)
Definition signals (ms : list (SignalingMessage * Oracle)) : list Event :=
  (λ mo, Signaling mo.1 mo.2) <$> ms.

Definition payloads (ms : list (SignalingMessage * Oracle)) : list Data :=
  (λ mo, data mo.1) <$> ms.

(** The messages of a sequence are candidates sent by [p]. *)
Definition candidatesFrom (p : string) (ms : list (SignalingMessage * Oracle)) : Prop :=
  Forall (λ mo, type mo.1 = ice_candidate ∧ from mo.1 = p) ms.

(** A message of the channel, as the hook of [sender] publishes it. *)
Definition message (ty : MessageType) (d : Data) (sender : string) (target : option string)
    : SignalingMessage :=
  {| type := ty; data := d; from := sender; to := target; room_id := "room" |}.

(** The participants of the examples: an anchor and two audience
    members of one room. *)
Definition alice : Config := {| roomId := "room"; userId := "alice"; isAnchor := true |}.
Definition bob : Config := {| roomId := "room"; userId := "bob"; isAnchor := false |}.
Definition carol : Config := {| roomId := "room"; userId := "carol"; isAnchor := false |}.

(** The first contact of a peer goes through: a [join] whose offer, if
    one is made, is created, or an [offer] that is applied and answered. *)
Definition negotiates (cfg : Config) (m : SignalingMessage) (o : Oracle) (st : State)
    : bool :=
  match type m with
  | join =>
      negb (isAnchor cfg && bool_decide (is_Some (localStream st)))
      || bool_decide (is_Some (createdDescription o))
  | offer => remoteDescriptionOk o && bool_decide (is_Some (createdDescription o))
  | _ => false
  end.

(** An oracle under which every promise resolves. *)
Definition resolves (d : Data) : Oracle :=
  {| remoteDescriptionOk := true; createdDescription := Some d;
     userMedia := Some [ {| audio := true; enabled := true; stopped := false |} ] |}.

(** An oracle under which every promise is rejected. *)
Definition rejects : Oracle :=
  {| remoteDescriptionOk := false; createdDescription := None; userMedia := None |}.

(** The state of a participant that has joined the call and met nobody. *)
Definition inCall (cfg : Config) : State :=
  (run cfg [JoinCall (resolves (Description "unused"))] initial).1.

(** Alice in a call, after bob has joined and has been offered a
    connection. *)
Definition aliceWithBob : State :=
  (run alice [Signaling (message join (JoinInfo false) "bob" None)
                (resolves (Description "offer of alice"))] (inCall alice)).1.

(** Alice in a call, after she failed to create the offer for bob: the
    second attempt is pending. *)
Definition aliceRetrying : State :=
  (run alice [Signaling (message join (JoinInfo false) "bob" None) rejects] (inCall alice)).1.

(** Alice as a user of the hook [useWebRTC]. *)
Definition aliceOnTable : WebRTC.Config :=
  {| WebRTC.roomId := "room"; WebRTC.userId := "alice" |}.

(** A row of the table, as the hook of [sender] inserts it. *)
Definition row (ty : MessageType) (d : Data) (sender recipient : string)
    : WebRTC.SignalingMessage :=
  {| WebRTC.room_id := "room"; WebRTC.from_user := sender; WebRTC.to_user := recipient;
     WebRTC.type := ty; WebRTC.data := d |}.

(** The row by which the hook [useWebRTC] of [wcfg] offers [d] to [anchorId]. *)
Definition offerRow (wcfg : WebRTC.Config) (anchorId : string) (d : Data) : WebRTC.Request :=
  WebRTC.Insert {| WebRTC.room_id := WebRTC.roomId wcfg;
                   WebRTC.from_user := WebRTC.userId wcfg;
                   WebRTC.to_user := anchorId;
                   WebRTC.type := offer;
                   WebRTC.data := d |}.

(** Offers, answers and candidates name their recipient; joins and
    leaves are for the whole room. *)
Definition targeted (m : SignalingMessage) : Prop :=
  match type m with
  | offer | answer | ice_candidate => is_Some (to m)
  | join | leave => to m = None
  end.

(** Every audio element is the one of a peer that has a session. *)
Definition audios_owned (st : State) : Prop :=
  ∀ p r, remoteAudios st !! p = Some r → is_Some (peers st !! p).

(** A pending retry was scheduled by an anchor, after at most two failed
    attempts, in a closure that holds a local stream and no session of the
    peer. *)
Definition retry_wf (cfg : Config) (t : Timer) : Prop :=
  match t with
  | RetryJoin cl p k =>
      isAnchor cfg = true ∧ k ≤ 2 ∧ c_peers cl !! p = None ∧ is_Some (c_localStream cl)
  | DisconnectedCheck _ => True
  end.

(** The capture streams are accounted for: a local stream is held only
    in a call, it is in the store, and every stream of the store that is
    not the local stream has all its tracks stopped. *)
Definition media_wf (st : State) : Prop :=
  (isInCall st = false → localStream st = None) ∧
  (∀ r, localStream st = Some r → r < length (streams st)) ∧
  (∀ r s, streams st !! r = Some s → localStream st ≠ Some r →
     Forall (λ t, stopped t = true) s).


(** In the hook [useWebRTC], the users reported as connected are those
    with a remote stream, each once. *)
Definition streams_reported (st : WebRTC.State) : Prop :=
  NoDup (WebRTC.connectedPeers st) ∧
  ∀ p, p ∈ WebRTC.connectedPeers st ↔ is_Some (WebRTC.remoteStreams st !! p).

(** ** The local operations *)

Section Local.

Variable cfg : Config.

(** [toggleMute] leaves every field but [isMuted] and [streams] as it
    is. *)
Lemma toggleMute_frame (st : State) :
  peers (toggleMute cfg st) = peers st ∧
  conns (toggleMute cfg st) = conns st ∧
  timers (toggleMute cfg st) = timers st ∧
  localStream (toggleMute cfg st) = localStream st ∧
  isInCall (toggleMute cfg st) = isInCall st ∧
  remoteAudios (toggleMute cfg st) = remoteAudios st.
Proof.
  unfold toggleMute.
  destruct (localStream st) as [r|] eqn:Hr; [|by rewrite Hr].
  destruct (isAnchor cfg); [|by rewrite Hr].
  destruct (firstAudioTrack _ ≫= _) as [[i t]|]; simpl; by rewrite ?Hr.
Qed.

(** The tracks of a stream after [toggleMute]: as many, each of the same
    kind and as stopped as before. *)
Lemma toggleMute_tracks (st : State) (r : nat) (s : MediaStream) :
  streams st !! r = Some s →
  ∃ s', streams (toggleMute cfg st) !! r = Some s' ∧
        Forall2 (λ t t', audio t' = audio t ∧ stopped t' = stopped t) s s'.
Proof.
  intros Hs.
  assert (Hrefl : Forall2 (λ t t', audio t' = audio t ∧ stopped t' = stopped t) s s).
  { by apply Forall2_same_length_lookup_2; [done|]; intros i t t' ? ?; simplify_eq. }
  unfold toggleMute.
  destruct (localStream st) as [r0|]; [|by eauto].
  destruct (isAnchor cfg); [|by eauto].
  destruct (firstAudioTrack _ ≫= _) as [[i t]|] eqn:Hfirst; [|by eauto].
  simpl. destruct (decide (r0 = r)) as [->|Hne].
  - rewrite list_lookup_alter_eq, Hs. simpl. eexists; split; [done|].
    rewrite Hs in Hfirst. simpl in Hfirst.
    destruct (firstAudioTrack s) as [j|]; simpl in Hfirst; [|done].
    destruct (s !! j) as [t0|] eqn:Hj; simpl in Hfirst; [|done].
    injection Hfirst as <- <-.
    apply Forall2_same_length_lookup_2; [by rewrite length_insert|].
    intros k t1 t2 Hk1 Hk2. destruct (decide (j = k)) as [->|Hjk].
    + rewrite list_lookup_insert_eq in Hk2 by (by eapply lookup_lt_Some).
      by simplify_eq.
    + rewrite list_lookup_insert_ne in Hk2 by done. by simplify_eq.
  - rewrite list_lookup_alter_ne by done. eauto.
Qed.

(** C9. [toggleMute] changes neither the value returned as
    [connectedPeers] nor the sessions, the connections of the store or the
    pending timers, and publishes nothing: it renegotiates nothing, creates
    no session and removes none. A stream of the store keeps its tracks,
    each of the same kind and as stopped as before. *)
Theorem C9_toggleMute_keeps_connectedPeers (st : State) :
  let st' := (step cfg ToggleMute st).1 in
  connectedPeers st' = connectedPeers st ∧
  peers st' = peers st ∧
  conns st' = conns st ∧
  timers st' = timers st ∧
  (step cfg ToggleMute st).2 = [] ∧
  (∀ r s, streams st !! r = Some s →
     ∃ s', streams st' !! r = Some s' ∧
           Forall2 (λ t t', audio t' = audio t ∧ stopped t' = stopped t) s s').
Proof.
  simpl. destruct (toggleMute_frame st) as (Hp & Hc & Ht & _).
  unfold connectedPeers. rewrite Hp.
  repeat split; try done. intros r s. apply toggleMute_tracks.
Qed.

(** C7. When the capture device is refused to an anchor that is neither
    in a call nor joining, [joinCall] returns with [error] set to the
    microphone message and nothing else changed: the participant is not in
    the call, no session and no connection exist that did not before, and
    nothing was announced. *)
Theorem C7_joinCall_media_denied (o : Oracle) (st : State) :
  isAnchor cfg = true →
  userMedia o = None →
  isInCall st = false →
  isConnecting st = false →
  joinCall cfg o st =
    (setError "Failed to access microphone. Please check your permissions." st, []) ∧
  let st' := (joinCall cfg o st).1 in
  error st' = "Failed to access microphone. Please check your permissions." ∧
  isInCall st' = false ∧
  peers st' = peers st ∧
  connectedPeers st' = connectedPeers st ∧
  conns st' = conns st ∧
  localStream st' = localStream st.
Proof.
  intros Ha Hm Hin Hco.
  assert (Heq : joinCall cfg o st =
    (setError "Failed to access microphone. Please check your permissions." st, [])).
  { unfold joinCall. rewrite Hin, Hco, Ha, Hm. simpl.
    destruct st; simpl in *; by subst. }
  split; [done|]. by rewrite Heq.
Qed.

Lemma closeAll_lookup (handles : list nat) (cs : list RTCPeerConnection) (h : nat) :
  closeAll handles cs !! h =
    (if decide (h ∈ handles) then close else λ c, c) <$> cs !! h.
Proof.
  induction handles as [|a handles IH]; simpl.
  - by destruct (cs !! h).
  - destruct (decide (h ∈ a :: handles)) as [Hin|Hout].
    + destruct (decide (a = h)) as [->|Hne].
      * rewrite list_lookup_alter_eq, IH.
        destruct (cs !! h) as [c|]; simpl; [|done].
        by destruct (decide (h ∈ handles)).
      * rewrite list_lookup_alter_ne, IH by done.
        apply elem_of_cons in Hin as [?|Hin]; [by simplify_eq|].
        by destruct (decide (h ∈ handles)).
    + apply not_elem_of_cons in Hout as [Hne Hout].
      rewrite list_lookup_alter_ne, IH by done.
      by destruct (decide (h ∈ handles)).
Qed.

Lemma closeAll_length (handles : list nat) (cs : list RTCPeerConnection) :
  length (closeAll handles cs) = length cs.
Proof.
  induction handles as [|a handles IH]; simpl; [done|].
  by rewrite length_alter.
Qed.

Lemma session_handle_listed (m : gmap string PeerConnection) (p : string)
    (peer : PeerConnection) :
  m !! p = Some peer → connection peer ∈ connection <$> (map_to_list m).*2.
Proof.
  intros Hp. apply list_elem_of_fmap. exists peer. split; [done|].
  apply list_elem_of_fmap. exists (p, peer). split; [done|].
  by apply elem_of_map_to_list.
Qed.

(** C6. [leaveCall] outside a call changes nothing and publishes
    nothing. In a call it returns a state with no session at all, in which
    the connection of every former session is closed, every track of the
    local stream is stopped and the reference to the stream is cleared, and
    which is not in a call, so that a second [leaveCall] changes nothing. *)
Theorem C6_leaveCall_idempotent (st : State) :
  let st' := (leaveCall cfg st).1 in
  (isInCall st = false → leaveCall cfg st = (st, [])) ∧
  (isInCall st = true →
     peers st' = ∅ ∧
     connectedPeers st' = [] ∧
     length (conns st') = length (conns st) ∧
     (∀ p peer c, peers st !! p = Some peer →
        conns st' !! connection peer = Some c → connectionState c = cs_closed) ∧
     localStream st' = None ∧
     (∀ r s, localStream st = Some r → streams st' !! r = Some s →
        Forall (λ t, stopped t = true) s) ∧
     isInCall st' = false) ∧
  leaveCall cfg st' = (st', []).
Proof.
  simpl. unfold leaveCall.
  destruct (isInCall st) eqn:Hin; simpl.
  - split; [done|]. split; [|by destruct (localStream st)].
    intros _.
    assert (Hstate : ∀ (x : State),
      match localStream st with
      | Some r => setLocalStream None (setStreams (alter (fmap stop) r) x)
      | None => x
      end = setLocalStream (match localStream st with Some _ => None | None => localStream x end)
              (setStreams (match localStream st with
                           | Some r => alter (fmap stop) r
                           | None => λ ss, ss
                           end) x)).
    { intros x. destruct (localStream st); [done|]. by destruct x. }
    rewrite Hstate. simpl. unfold connectedPeers. simpl.
    rewrite map_to_list_empty. repeat split; try done.
    + apply closeAll_length.
    + intros p peer c Hp. rewrite closeAll_lookup.
      rewrite decide_True by (by eapply session_handle_listed).
      destruct (conns st !! connection peer); simpl; [|done].
      by intros [= <-].
    + by destruct (localStream st) eqn:Hl; rewrite ?Hl.
    + intros r s Hr. rewrite Hr. rewrite list_lookup_alter_eq.
      destruct (streams st !! r) as [s0|]; simpl; [|done].
      intros [= <-]. apply Forall_fmap. by apply Forall_true.
  - by rewrite Hin.
Qed.

End Local.

(** ** One session per peer *)

Section Sessions.

Variable cfg : Config.

Lemma isOpen_close (c : RTCPeerConnection) : isOpen (close c) = false.
Proof. done. Qed.

Lemma isOpen_newConnection (p : string) (n : nat) : isOpen (newConnection p n) = true.
Proof. done. Qed.

Lemma drainQueue_spec (queue : list Data) (c : RTCPeerConnection) :
  owner (drainQueue queue c) = owner c ∧
  connectionState (drainQueue queue c) = connectionState c ∧
  remoteDescription (drainQueue queue c) = remoteDescription c ∧
  localDescription (drainQueue queue c) = localDescription c ∧
  addedCandidates (drainQueue queue c) = addedCandidates c ++ queue.
Proof.
  revert c. induction queue as [|d queue IH]; intros c; simpl.
  - by rewrite app_nil_r.
  - destruct (IH (addIceCandidate d c)) as (-> & -> & -> & -> & ->). simpl.
    by rewrite <- app_assoc.
Qed.

Variable strict : bool.

(** [sessions_wf] reads the sessions and the store only. *)
Lemma sessions_wf_ext (st st' : State) :
  peers st' = peers st → conns st' = conns st →
  sessions_wf strict st → sessions_wf strict st'.
Proof. unfold sessions_wf, sessions_open, connections_owned. by intros -> ->. Qed.

(** Two sessions never share a connection. *)
Lemma sessions_open_inj (st : State) (p q : string) (peer peer' : PeerConnection) :
  sessions_open st → peers st !! p = Some peer → peers st !! q = Some peer' →
  connection peer = connection peer' → p = q.
Proof.
  intros HA Hp Hq Heq.
  destruct (HA _ _ Hp) as (_ & c & Hc & <- & _).
  destruct (HA _ _ Hq) as (_ & c' & Hc' & <- & _).
  rewrite Heq in Hc. by simplify_eq.
Qed.

(** An update of one connection that keeps its owner and leaves it open
    or closed as it was. *)
Lemma sessions_wf_alter (f : RTCPeerConnection → RTCPeerConnection) (h : nat) (st : State) :
  (∀ c, conns st !! h = Some c → owner (f c) = owner c ∧ isOpen (f c) = isOpen c) →
  sessions_wf strict st → sessions_wf strict (setConns (alter f h) st).
Proof.
  intros Hf [HA HB]. split; [|intros Hstrict; specialize (HB Hstrict)]; simpl.
  - intros p peer Hp. destruct (HA _ _ Hp) as (Hid & c & Hc & Ho & Hopen).
    split; [done|]. simpl. rewrite list_lookup_alter.
    destruct (decide (h = connection peer)) as [->|Hne].
    + rewrite Hc. simpl. destruct (Hf _ Hc) as [Hfo Hfopen].
      eexists; split; [done|]. by rewrite Hfo, Hfopen.
    + eauto.
  - intros h' c'. simpl. rewrite list_lookup_alter.
    destruct (decide (h = h')) as [->|Hne]; [|by apply HB].
    destruct (conns st !! h') as [c|] eqn:Hc; simpl; [|done].
    intros [= <-] Hopen. destruct (Hf _ eq_refl) as [Hfo Hfopen].
    rewrite Hfo. apply (HB _ _ Hc). by rewrite <- Hfopen.
Qed.

(** A session replaced by one with the same identity and connection. *)
Lemma sessions_wf_insert (p : string) (peer peer' : PeerConnection) (st : State) :
  peers st !! p = Some peer →
  id peer' = id peer → connection peer' = connection peer →
  sessions_wf strict st → sessions_wf strict (setPeers (insert p peer') st).
Proof.
  intros Hp Hid Hconn [HA HB]. split; [|intros Hstrict; specialize (HB Hstrict)].
  - intros q peerq. simpl. rewrite lookup_insert.
    destruct (decide (p = q)) as [->|Hne]; [|by apply HA].
    intros [= <-]. rewrite Hid, Hconn. by apply HA.
  - intros h c Hc Hopen. destruct (HB _ _ Hc Hopen) as (peer0 & Hp0 & Hh).
    simpl. rewrite lookup_insert. destruct (decide (p = owner c)) as [->|Hne]; [|by eauto].
    exists peer'. split; [done|]. rewrite Hconn. by simplify_eq.
Qed.

(** [handlePeerLeave] keeps the correspondence. *)
Lemma sessions_wf_handlePeerLeave (p : string) (st : State) :
  sessions_wf strict st → sessions_wf strict (handlePeerLeave p st).
Proof.
  intros Hwf. unfold handlePeerLeave.
  destruct (peers st !! p) as [peer|] eqn:Hp; [|by eapply sessions_wf_ext].
  eapply (sessions_wf_ext (setPeers (delete p) (setConns (alter close (connection peer)) st)));
    [done..|].
  destruct Hwf as [HA HB]. split; [|intros Hstrict; specialize (HB Hstrict)].
  - intros q peerq. simpl. rewrite lookup_delete.
    destruct (decide (p = q)) as [->|Hne]; [done|]. intros Hq.
    destruct (HA _ _ Hq) as (Hid & c & Hc & Ho & Hopen). split; [done|].
    rewrite list_lookup_alter_ne; [by eauto|].
    intros Heq. apply Hne. by eapply sessions_open_inj.
  - intros h c. simpl. rewrite list_lookup_alter.
    destruct (decide (connection peer = h)) as [<-|Hne].
    + destruct (conns st !! connection peer); simpl; [|done]. by intros [= <-].
    + intros Hc Hopen. destruct (HB _ _ Hc Hopen) as (peer0 & Hp0 & Hh).
      exists peer0. split; [|done]. rewrite lookup_delete_ne; [done|].
      intros Heq. rewrite <- Heq in Hp0. by simplify_eq.
Qed.

(** A new session on a new connection. Every open connection keeps its
    session when the peer had none. *)
Lemma sessions_wf_create (captured : option nat) (p : string) (st : State) :
  (strict = true → peers st !! p = None) → sessions_wf strict st →
  sessions_wf strict
    (setPeers (insert p {| id := p; connection := (createPeerConnection captured p st).2;
                           stream := None; iceCandidatesQueue := [] |})
       (createPeerConnection captured p st).1).
Proof.
  intros Hp [HA HB]. split; [|intros Hstrict; specialize (HB Hstrict); specialize (Hp Hstrict)].
  - intros q peerq. simpl. rewrite lookup_insert.
    destruct (decide (p = q)) as [->|Hne].
    + intros [= <-]. simpl. split; [done|].
      eexists. split; [by apply list_lookup_middle|]. done.
    + intros Hq. destruct (HA _ _ Hq) as (Hid & c & Hc & Ho & Hopen).
      split; [done|]. exists c. split; [|done]. by apply lookup_app_l_Some.
  - intros h c [Hc|[-> <-]]%lookup_snoc_Some Hopen.
    + destruct Hc as [_ Hc]. destruct (HB _ _ Hc Hopen) as (peer0 & Hp0 & Hh).
      exists peer0. split; [|done]. simpl. rewrite lookup_insert_ne; [done|].
      intros Heq. rewrite <- Heq in Hp0. by simplify_eq.
    + simpl. rewrite lookup_insert_eq. by eexists.
Qed.

Lemma sessions_wf_processQueued (p : string) (st : State) :
  sessions_wf strict st → sessions_wf strict (processQueued p st).
Proof.
  intros Hwf. unfold processQueued.
  destruct (peers st !! p) as [peer|] eqn:Hp; [|done].
  eapply sessions_wf_insert; [done..|].
  apply sessions_wf_alter; [|done].
  intros c _. destruct (drainQueue_spec (iceCandidatesQueue peer) c) as (Ho & Hs & _).
  split; [done|]. unfold isOpen. by rewrite Hs.
Qed.

(** [handlePeerJoin] keeps the first half of the correspondence in any
    closure, and the second half in a closure that knows the peer whenever
    the committed state does. *)
Lemma sessions_wf_handlePeerJoin (cl : Closure) (p : string) (n : nat) (o : Oracle)
    (st : State) :
  (strict = true → c_peers cl !! p = None → peers st !! p = None) →
  sessions_wf strict st → sessions_wf strict (handlePeerJoin cfg cl p n o st).1.
Proof.
  intros Hcl Hwf. unfold handlePeerJoin.
  case_bool_decide as Hknown; [done|].
  assert (Hp : strict = true → peers st !! p = None).
  { intros Hstrict. apply Hcl; [done|]. by apply eq_None_not_Some. }
  pose proof (sessions_wf_create (c_localStream cl) p st Hp Hwf) as Hnew.
  destruct (createPeerConnection (c_localStream cl) p st) as [st1 c] eqn:Hcreate.
  simpl in Hnew.
  destruct (isAnchor cfg && bool_decide (is_Some (c_localStream cl))); [|done].
  destruct (createdDescription o) as [d|].
  - simpl. by apply sessions_wf_alter.
  - case_bool_decide; simpl.
    + eapply sessions_wf_ext; [..|by apply sessions_wf_handlePeerLeave]; done.
    + by apply sessions_wf_handlePeerLeave.
Qed.

Lemma sessions_wf_handleOffer (p : string) (d : Data) (o : Oracle) (st : State) :
  sessions_wf strict st → sessions_wf strict (handleOffer cfg p d o st).1.
Proof.
  intros Hwf. unfold handleOffer.
  case_bool_decide as Hknown; [done|].
  assert (Hp : strict = true → peers st !! p = None)
    by (intros _; by apply eq_None_not_Some).
  pose proof (sessions_wf_create (localStream st) p st Hp Hwf) as Hnew.
  destruct (createPeerConnection (localStream st) p st) as [st1 c] eqn:Hcreate.
  simpl in Hnew.
  destruct (remoteDescriptionOk o); [|by apply sessions_wf_handlePeerLeave].
  assert (Hq : sessions_wf strict (processQueued p
            (setConns (alter (setRemoteDescription d) c)
               (setPeers (insert p {| id := p; connection := c; stream := None;
                                      iceCandidatesQueue := [] |}) st1)))).
  { apply sessions_wf_processQueued. by apply sessions_wf_alter. }
  destruct (createdDescription o) as [a|]; simpl.
  - by apply sessions_wf_alter.
  - by apply sessions_wf_handlePeerLeave.
Qed.

Lemma sessions_wf_handleAnswer (p : string) (d : Data) (o : Oracle) (st : State) :
  sessions_wf strict st → sessions_wf strict (handleAnswer p d o st).1.
Proof.
  intros Hwf. unfold handleAnswer.
  destruct (peers st !! p) as [peer|]; [|done].
  destruct (remoteDescriptionOk o); simpl.
  - apply sessions_wf_processQueued. by apply sessions_wf_alter.
  - by apply sessions_wf_handlePeerLeave.
Qed.

Lemma sessions_wf_handleIceCandidate (p : string) (d : Data) (st : State) :
  sessions_wf strict st → sessions_wf strict (handleIceCandidate p d st).1.
Proof.
  intros Hwf. unfold handleIceCandidate.
  destruct (peers st !! p) as [peer|] eqn:Hp; [|done].
  case_bool_decide; simpl.
  - by apply sessions_wf_alter.
  - by eapply sessions_wf_insert.
Qed.

Lemma sessions_wf_handleSignalingMessage (m : SignalingMessage) (o : Oracle) (st : State) :
  sessions_wf strict st → sessions_wf strict (handleSignalingMessage cfg m o st).1.
Proof.
  intros Hwf. unfold handleSignalingMessage.
  case_bool_decide; [done|].
  destruct (type m).
  - by apply sessions_wf_handleOffer.
  - by apply sessions_wf_handleAnswer.
  - by apply sessions_wf_handleIceCandidate.
  - by apply sessions_wf_handlePeerJoin.
  - by apply sessions_wf_handlePeerLeave.
Qed.

Lemma sessions_wf_joinCall (o : Oracle) (st : State) :
  sessions_wf strict st → sessions_wf strict (joinCall cfg o st).1.
Proof.
  intros Hwf. unfold joinCall.
  destruct (isInCall st || isConnecting st); [done|].
  destruct (isAnchor cfg); [destruct (userMedia o)|];
    by eapply sessions_wf_ext; [..|done].
Qed.

Lemma sessions_wf_leaveCall (st : State) :
  sessions_wf strict st → sessions_wf strict (leaveCall cfg st).1.
Proof.
  intros Hwf. unfold leaveCall.
  destruct (isInCall st); [|done]. simpl.
  eapply (sessions_wf_ext
    (setPeers (λ _, ∅)
       (setConns (closeAll (connection <$> (map_to_list (peers st)).*2)) st)));
    [by destruct (localStream st)..|].
  destruct Hwf as [HA HB]. split; [|intros Hstrict; specialize (HB Hstrict)].
  - intros p peer. simpl. by rewrite lookup_empty.
  - intros h c. simpl. rewrite closeAll_lookup.
    destruct (conns st !! h) as [c0|] eqn:Hc; simpl; [|done].
    destruct (decide (h ∈ _)) as [Hin|Hout].
    + by intros [= <-].
    + intros [= <-] Hopen. destruct (HB _ _ Hc Hopen) as (peer & Hp & Hh).
      destruct Hout. rewrite <- Hh. by eapply session_handle_listed.
Qed.

Lemma sessions_wf_ontrack (c : RTCPeerConnection) (remoteStream : nat) (st : State) :
  sessions_wf strict st → sessions_wf strict (ontrack c remoteStream st).
Proof.
  intros Hwf. unfold ontrack.
  destruct (peers st !! owner c) as [peer|] eqn:Hp.
  - eapply (sessions_wf_ext
      (setPeers (insert (owner c)
                   {| id := id peer; connection := connection peer;
                      stream := Some remoteStream;
                      iceCandidatesQueue := iceCandidatesQueue peer |}) st));
      [by simpl; rewrite Hp|done|].
    by eapply sessions_wf_insert.
  - eapply sessions_wf_ext; [..|done]; [|done]. simpl. by rewrite Hp.
Qed.

(** Every event keeps the first half of the correspondence, and every
    event but a timer the second. *)
Lemma sessions_wf_step (e : Event) (st : State) :
  (strict = true → untimed e = true) →
  sessions_wf strict st → sessions_wf strict (step cfg e st).1.
Proof.
  intros He Hwf. destruct e as [m o|i o|o| | |h d|h r|h s restartIce]; simpl.
  - by apply sessions_wf_handleSignalingMessage.
  - destruct (timers st !! i) as [[cl p n|h]|]; simpl; [| |done].
    + apply sessions_wf_handlePeerJoin.
      * intros Hstrict. by specialize (He Hstrict).
      * by eapply sessions_wf_ext.
    + destruct (conns st !! h) as [c|]; [|by eapply sessions_wf_ext].
      case_bool_decide; simpl; [|by eapply sessions_wf_ext].
      apply sessions_wf_handlePeerLeave. by eapply sessions_wf_ext.
  - by apply sessions_wf_joinCall.
  - by apply sessions_wf_leaveCall.
  - destruct (toggleMute_frame cfg st) as (Hp & Hc & _).
    by eapply sessions_wf_ext.
  - destruct (conns st !! h) as [c|]; [|done]. by destruct (isOpen c).
  - destruct (conns st !! h) as [c|]; [|done].
    destruct (isOpen c); [|done]. by apply sessions_wf_ontrack.
  - destruct (conns st !! h) as [c|] eqn:Hc; [|done].
    destruct (isOpen c) eqn:Hopen; [|done].
    case_bool_decide as Hs; [|done]. simpl.
    assert (Hset : sessions_wf strict (setConns (alter (setConnectionState s) h) st)).
    { apply sessions_wf_alter; [|done]. intros c0 Hc0. simplify_eq.
      split; [done|]. rewrite Hopen. unfold isOpen. simpl.
      by apply bool_decide_eq_true. }
    unfold onconnectionstatechange. simpl.
    destruct s; try done.
    destruct restartIce; [done|]. by apply sessions_wf_handlePeerLeave.
Qed.



End Sessions.

Section Duplicates.

Variable cfg : Config.

Lemma sessions_open_initial : sessions_open initial.
Proof. intros p peer. simpl. by rewrite lookup_empty. Qed.

Lemma connections_owned_initial : connections_owned initial.
Proof. by intros h c. Qed.



End Duplicates.

(** ** What is published, and by whom *)

Section Published.

Variable cfg : Config.

Lemma sendSignalingMessage_spec (ty : MessageType) (d : Data) (target : option string)
    (m : SignalingMessage) :
  m ∈ sendSignalingMessage cfg ty d target →
  type m = ty ∧ data m = d ∧ to m = target ∧ from m = userId cfg.
Proof.
  unfold sendSignalingMessage. destruct (signalingChannel cfg).
  - by intros ->%list_elem_of_singleton.
  - by intros ?%elem_of_nil.
Qed.

(** [handlePeerJoin] publishes at most an offer to the peer, and only for
    an anchor that holds a local stream. *)
Lemma handlePeerJoin_published (cl : Closure) (p : string) (n : nat) (o : Oracle)
    (st : State) (m : SignalingMessage) :
  m ∈ (handlePeerJoin cfg cl p n o st).2 →
  isAnchor cfg = true ∧ is_Some (c_localStream cl) ∧
  type m = offer ∧ to m = Some p ∧ createdDescription o = Some (data m).
Proof.
  unfold handlePeerJoin.
  case_bool_decide; [by intros ?%elem_of_nil|].
  destruct (createPeerConnection (c_localStream cl) p st) as [st1 c].
  destruct (isAnchor cfg); simpl; [|by intros ?%elem_of_nil].
  case_bool_decide as Hs; simpl; [|by intros ?%elem_of_nil].
  destruct (createdDescription o) as [d|].
  - simpl. intros (? & <- & ? & ?)%sendSignalingMessage_spec. done.
  - case_bool_decide; by intros ?%elem_of_nil.
Qed.

(** [handleOffer] publishes at most an answer to the offering peer. *)
Lemma handleOffer_published (p : string) (d : Data) (o : Oracle) (st : State)
    (m : SignalingMessage) :
  m ∈ (handleOffer cfg p d o st).2 → type m = answer ∧ to m = Some p.
Proof.
  unfold handleOffer.
  case_bool_decide; [by intros ?%elem_of_nil|].
  destruct (createPeerConnection (localStream st) p st) as [st1 c].
  destruct (remoteDescriptionOk o); [|by intros ?%elem_of_nil].
  destruct (createdDescription o) as [a|]; simpl.
  - by intros (? & ? & ? & ?)%sendSignalingMessage_spec.
  - by intros ?%elem_of_nil.
Qed.

(** The cause of each message a step publishes. *)
Lemma step_published (e : Event) (st : State) (m : SignalingMessage) :
  m ∈ (step cfg e st).2 →
  match type m with
  | offer =>
      isAnchor cfg = true ∧
      ((∃ m' o, e = Signaling m' o ∧ type m' = join ∧ to m = Some (from m')) ∨
       (∃ i o, e = TimerFired i o))
  | answer => ∃ m' o, e = Signaling m' o ∧ type m' = offer ∧ to m = Some (from m')
  | ice_candidate => ∃ h d, e = IceCandidateEvent h d
  | join => ∃ o, e = JoinCall o
  | leave => e = LeaveCall
  end.
Proof.
  destruct e as [m' o|i o|o| | |h d|h r|h s restartIce]; simpl.
  - unfold handleSignalingMessage. case_bool_decide; [by intros ?%elem_of_nil|].
    destruct (type m') eqn:Hty.
    + intros [-> ->]%handleOffer_published. by eauto.
    + unfold handleAnswer. destruct (peers st !! from m'); [|by intros ?%elem_of_nil].
      destruct (remoteDescriptionOk o); by intros ?%elem_of_nil.
    + unfold handleIceCandidate. destruct (peers st !! from m'); [|by intros ?%elem_of_nil].
      case_bool_decide; by intros ?%elem_of_nil.
    + intros (? & _ & -> & -> & _)%handlePeerJoin_published.
      split; [done|]. left. by eauto.
    + by intros ?%elem_of_nil.
  - destruct (timers st !! i) as [[cl p n|h]|]; simpl; [| |by intros ?%elem_of_nil].
    + intros (? & _ & -> & _)%handlePeerJoin_published. split; [done|]. right. by eauto.
    + destruct (conns st !! h) as [c|]; [|by intros ?%elem_of_nil].
      case_bool_decide; by intros ?%elem_of_nil.
  - unfold joinCall. destruct (isInCall st || isConnecting st); [by intros ?%elem_of_nil|].
    destruct (isAnchor cfg); [destruct (userMedia o)|]; simpl;
      try (by intros ?%elem_of_nil);
      intros (-> & _)%sendSignalingMessage_spec; by eauto.
  - unfold leaveCall. destruct (isInCall st); simpl; [|by intros ?%elem_of_nil].
    by intros (-> & _)%sendSignalingMessage_spec.
  - by intros ?%elem_of_nil.
  - destruct (conns st !! h) as [c|]; [|by intros ?%elem_of_nil].
    destruct (isOpen c); [|by intros ?%elem_of_nil].
    unfold onicecandidate. intros (-> & _)%sendSignalingMessage_spec. by eauto.
  - destruct (conns st !! h) as [c|]; [|by intros ?%elem_of_nil].
    destruct (isOpen c); by intros ?%elem_of_nil.
  - destruct (conns st !! h) as [c|]; [|by intros ?%elem_of_nil].
    destruct (isOpen c && _); by intros ?%elem_of_nil.
Qed.

(** A message published by a run is published by one of its steps. *)
Lemma run_published (es : list Event) (st : State) (m : SignalingMessage) :
  m ∈ (run cfg es st).2 → ∃ e st0, e ∈ es ∧ m ∈ (step cfg e st0).2.
Proof.
  revert st. induction es as [|e es IH]; intros st; simpl; [by intros ?%elem_of_nil|].
  destruct (step cfg e st) as [st1 out1] eqn:Hstep.
  specialize (IH st1). destruct (run cfg es st1) as [st2 out2]. simpl in *.
  intros [Hm|Hm]%elem_of_app.
  - exists e, st. rewrite Hstep. split; [by left|done].
  - destruct (IH Hm) as (e0 & st0 & He0 & Hm0). exists e0, st0. split; [by right|done].
Qed.

(** C4. A participant that is not an anchor never publishes an offer,
    whatever the events and the state it starts from; and an answer is
    only ever published, by any participant, while an offer is handled, to
    the sender of that offer. *)
Theorem C4_receiver_never_offers (es : list Event) (st : State) :
  isAnchor cfg = false →
  Forall (λ m, type m ≠ offer) (run cfg es st).2 ∧
  (∀ e st0 m, m ∈ (step cfg e st0).2 → type m = answer →
     ∃ m' o, e = Signaling m' o ∧ type m' = offer ∧ to m = Some (from m')).
Proof.
  intros Hrole. split.
  - apply Forall_forall. intros m (e & st0 & _ & Hm)%run_published Hty.
    apply step_published in Hm. rewrite Hty in Hm. destruct Hm as [Ha _]. congruence.
  - intros e st0 m Hm Hty. apply step_published in Hm. by rewrite Hty in Hm.
Qed.

End Published.

(** ** The candidate queue *)

Section Candidates.

Variable cfg : Config.

(** While the remote description of the session is unset, the candidates
    of the peer are appended to the queue and the store is not touched. *)
Lemma candidates_queued (p : string) (ms : list (SignalingMessage * Oracle)) :
  p ≠ userId cfg → candidatesFrom p ms →
  ∀ (peer : PeerConnection) (st : State),
    peers st !! p = Some peer →
    remoteDescriptionOf (connection peer) st = None →
    let st' := (run cfg (signals ms) st).1 in
    peers st' = <[p := {| id := id peer; connection := connection peer;
                          stream := stream peer;
                          iceCandidatesQueue := iceCandidatesQueue peer ++ payloads ms |}]>
                  (peers st) ∧
    conns st' = conns st ∧
    (run cfg (signals ms) st).2 = [].
Proof.
  intros Hp Hms. induction Hms as [|[m o] ms [Hty Hfrom] Hms IH]; intros peer st Hpeer Hrd.
  - simpl. rewrite app_nil_r. split; [|done]. destruct peer. by rewrite insert_id.
  - simpl in *. unfold handleSignalingMessage.
    rewrite bool_decide_eq_false_2 by congruence. rewrite Hty, Hfrom.
    unfold handleIceCandidate. rewrite Hpeer, Hrd.
    rewrite bool_decide_eq_false_2 by (by intros [? ?]).
    set (peer1 := {| id := id peer; connection := connection peer; stream := stream peer;
                     iceCandidatesQueue := iceCandidatesQueue peer ++ [data m] |}).
    set (st1 := setPeers (insert p peer1) st).
    destruct (IH peer1 st1) as (Hpeers & Hconns & Hout).
    { simpl. by rewrite lookup_insert_eq. }
    { done. }
    destruct (run cfg (signals ms) st1) as [st2 out2]. simpl in *.
    rewrite Hpeers, Hconns, Hout. split; [|done].
    rewrite insert_insert_eq. by rewrite <- app_assoc.
Qed.

(** Once the remote description of the session is set, the candidates of
    the peer go to the connection one by one and the sessions are not
    touched. *)
Lemma candidates_applied (p : string) (ms : list (SignalingMessage * Oracle)) :
  p ≠ userId cfg → candidatesFrom p ms →
  ∀ (peer : PeerConnection) (c : RTCPeerConnection) (st : State),
    peers st !! p = Some peer →
    conns st !! connection peer = Some c →
    is_Some (remoteDescription c) →
    let st' := (run cfg (signals ms) st).1 in
    peers st' = peers st ∧
    conns st' !! connection peer =
      Some {| owner := owner c; senders := senders c;
              localDescription := localDescription c;
              remoteDescription := remoteDescription c;
              addedCandidates := addedCandidates c ++ payloads ms;
              connectionState := connectionState c |} ∧
    (run cfg (signals ms) st).2 = [].
Proof.
  intros Hp Hms. induction Hms as [|[m o] ms [Hty Hfrom] Hms IH];
    intros peer c st Hpeer Hc Hrd.
  - simpl. rewrite app_nil_r. by destruct c.
  - simpl in *. unfold handleSignalingMessage.
    rewrite bool_decide_eq_false_2 by congruence. rewrite Hty, Hfrom.
    unfold handleIceCandidate, remoteDescriptionOf. rewrite Hpeer, Hc. simpl.
    rewrite bool_decide_eq_true_2 by done.
    set (st1 := setConns (alter (addIceCandidate (data m)) (connection peer)) st).
    destruct (IH peer (addIceCandidate (data m) c) st1) as (Hpeers & Hconns & Hout).
    { done. }
    { simpl. by rewrite list_lookup_alter_eq, Hc. }
    { done. }
    destruct (run cfg (signals ms) st1) as [st2 out2]. simpl in *.
    rewrite Hpeers, Hconns, Hout. by rewrite <- app_assoc.
Qed.

(** On the answering side the session is made by the offer itself, which
    is applied before any candidate can be queued: the queue is empty when
    it is drained, and the candidates of the peer go to the connection as
    they arrive. *)
Lemma candidates_after_offer (p : string) (d a : Data) (o : Oracle)
    (ms : list (SignalingMessage * Oracle)) (st : State) :
  p ≠ userId cfg →
  peers st !! p = None →
  remoteDescriptionOk o = true →
  createdDescription o = Some a →
  candidatesFrom p ms →
  let st1 := (handleOffer cfg p d o st).1 in
  let st2 := (run cfg (signals ms) st1).1 in
  ∃ peer c, peers st2 !! p = Some peer ∧ iceCandidatesQueue peer = [] ∧
    conns st2 !! connection peer = Some c ∧
    remoteDescription c = Some d ∧ addedCandidates c = payloads ms.
Proof.
  intros Hp Hnew Hok Ha Hms. cbv zeta.
  set (c1 := setLocalDescription a (setRemoteDescription d
               (newConnection p match localStream st with
                                | Some r => length (default [] (streams st !! r))
                                | None => 0
                                end))).
  set (peer1 := {| id := p; connection := length (conns st); stream := None;
                   iceCandidatesQueue := [] |}).
  assert (Hst1 : peers (handleOffer cfg p d o st).1 !! p = Some peer1 ∧
                 conns (handleOffer cfg p d o st).1 !! length (conns st) = Some c1).
  { unfold handleOffer. rewrite bool_decide_eq_false_2 by (rewrite Hnew; by intros [? ?]).
    unfold createPeerConnection. rewrite Hok, Ha. unfold processQueued. simpl.
    rewrite lookup_insert_eq. simpl. rewrite lookup_insert_eq.
    split; [done|]. by rewrite !list_lookup_alter_eq, list_lookup_middle. }
  destruct Hst1 as [Hpeer1 Hc1].
  destruct (candidates_applied p ms Hp Hms peer1 c1 _ Hpeer1 Hc1) as (Hpeers & Hconns & _);
    [done|].
  eexists peer1, _. rewrite Hpeers, Hpeer1. split; [done|]. split; [done|].
  split; [exact Hconns|]. done.
Qed.

(** C2. For a session whose remote description is unset: the candidates
    the peer sends are appended to the queue of the session, none given to
    the connection; the answer of the peer sets the remote description and
    gives the queued candidates to the connection in arrival order, each
    once, leaving the queue empty; the candidates the peer sends after that
    are given to the connection as they arrive, after the queued ones, and
    the queue stays empty. *)
Theorem C2_queue_then_flush (p : string) (peer : PeerConnection) (c : RTCPeerConnection)
    (before after : list (SignalingMessage * Oracle)) (a : SignalingMessage) (o : Oracle)
    (st : State) :
  p ≠ userId cfg →
  peers st !! p = Some peer →
  conns st !! connection peer = Some c →
  remoteDescription c = None →
  candidatesFrom p before →
  candidatesFrom p after →
  type a = answer → from a = p → remoteDescriptionOk o = true →
  let st1 := (run cfg (signals before) st).1 in
  let st2 := (step cfg (Signaling a o) st1).1 in
  let st3 := (run cfg (signals after) st2).1 in
  (∃ peer1, peers st1 !! p = Some peer1 ∧
     iceCandidatesQueue peer1 = iceCandidatesQueue peer ++ payloads before ∧
     conns st1 !! connection peer = Some c) ∧
  (∃ peer2 c2, peers st2 !! p = Some peer2 ∧ connection peer2 = connection peer ∧
     iceCandidatesQueue peer2 = [] ∧
     conns st2 !! connection peer = Some c2 ∧
     remoteDescription c2 = Some (data a) ∧
     addedCandidates c2 =
       addedCandidates c ++ iceCandidatesQueue peer ++ payloads before) ∧
  (∃ peer3 c3, peers st3 !! p = Some peer3 ∧ connection peer3 = connection peer ∧
     iceCandidatesQueue peer3 = [] ∧
     conns st3 !! connection peer = Some c3 ∧
     remoteDescription c3 = Some (data a) ∧
     addedCandidates c3 =
       addedCandidates c ++ iceCandidatesQueue peer ++ payloads before ++ payloads after).
Proof.
  intros Hp Hpeer Hc Hrd Hbefore Hafter Hty Hfrom Hok. simpl.
  destruct (candidates_queued p before Hp Hbefore peer st Hpeer) as (Hpeers1 & Hconns1 & _).
  { unfold remoteDescriptionOf. by rewrite Hc. }
  set (st1 := (run cfg (signals before) st).1) in *.
  set (peer1 := {| id := id peer; connection := connection peer; stream := stream peer;
                   iceCandidatesQueue := iceCandidatesQueue peer ++ payloads before |}) in *.
  assert (Hpeer1 : peers st1 !! p = Some peer1) by (by rewrite Hpeers1, lookup_insert_eq).
  split. { exists peer1. by rewrite Hconns1. }
  unfold handleSignalingMessage.
  rewrite bool_decide_eq_false_2 by congruence. rewrite Hty, Hfrom.
  unfold handleAnswer. rewrite Hpeer1, Hok. simpl.
  unfold processQueued. simpl. rewrite Hpeer1. simpl.
  set (c2 := drainQueue (iceCandidatesQueue peer ++ payloads before)
               (setRemoteDescription (data a) c)).
  set (peer2 := {| id := id peer; connection := connection peer; stream := stream peer;
                   iceCandidatesQueue := [] |}).
  set (st2 := setPeers (insert p peer2) _).
  assert (Hpeer2 : peers st2 !! p = Some peer2) by (simpl; by rewrite lookup_insert_eq).
  assert (Hc2 : conns st2 !! connection peer = Some c2).
  { simpl. by rewrite !list_lookup_alter_eq, Hconns1, Hc. }
  destruct (drainQueue_spec (iceCandidatesQueue peer ++ payloads before)
              (setRemoteDescription (data a) c)) as (Ho2 & Hs2 & Hr2 & Hl2 & Ha2).
  fold c2 in Ho2, Hs2, Hr2, Hl2, Ha2. simpl in Hr2, Ha2.
  split. { exists peer2, c2. by rewrite Hr2, Ha2. }
  destruct (candidates_applied p after Hp Hafter peer2 c2 st2 Hpeer2 Hc2)
    as (Hpeers3 & Hconns3 & _).
  { by rewrite Hr2. }
  simpl in Hconns3. eexists peer2, _. rewrite Hpeers3, Hpeer2.
  split; [done|]. split; [done|]. split; [done|]. split; [exact Hconns3|].
  simpl. rewrite Hr2, Ha2. split; [done|]. by rewrite <- !app_assoc.
Qed.

End Candidates.

(** ** Offer creation that fails *)

Section Retry.

Variable cfg : Config.

Lemma alter_snoc {A} (f : A → A) (l : list A) (x : A) :
  alter f (length l) (l ++ [x]) = l ++ [f x].
Proof. rewrite alter_app_r_alt by lia. by rewrite Nat.sub_diag. Qed.

Lemma delete_snoc {A} (l : list A) (x : A) : delete (length l) (l ++ [x]) = l.
Proof. by rewrite delete_middle, app_nil_r. Qed.

(** One attempt of an anchor whose offer cannot be created: the
    connection made for the attempt is closed, the session is removed
    again, and a retry is scheduled unless this was the third attempt. The
    [error] of the hook is not written. *)
Lemma failed_attempt (cl : Closure) (p : string) (k : nat) (o : Oracle) (st : State) :
  isAnchor cfg = true →
  is_Some (c_localStream cl) →
  c_peers cl !! p = None →
  peers st !! p = None →
  createdDescription o = None →
  handlePeerJoin cfg cl p k o st =
    ({| isInCall := isInCall st; isMuted := isMuted st; localStream := localStream st;
        peers := peers st; isConnecting := isConnecting st; error := error st;
        remoteAudios := delete p (remoteAudios st);
        conns := conns st ++ [close (newConnection p
                   match c_localStream cl with
                   | Some r => length (default [] (streams st !! r))
                   | None => 0
                   end)];
        streams := streams st;
        timers := if bool_decide (k < 2)
                  then timers st ++ [RetryJoin cl p (k + 1)] else timers st |}, []).
Proof.
  intros Ha Hs Hcl Hp Ho. unfold handlePeerJoin.
  rewrite bool_decide_eq_false_2 by (rewrite Hcl; by intros [? ?]).
  unfold createPeerConnection. rewrite Ha, Ho.
  rewrite bool_decide_eq_true_2 by done. simpl.
  unfold handlePeerLeave. simpl. rewrite lookup_insert_eq. simpl.
  case_bool_decide; unfold setTimers, setRemoteAudios, setPeers, setConns; simpl;
    by rewrite alter_snoc, delete_insert_id.
Qed.

(** An attempt whose offer is created publishes it to the peer. *)
Lemma created_offer_published (cl : Closure) (p : string) (k : nat) (o : Oracle)
    (d : Data) (st : State) :
  isAnchor cfg = true →
  is_Some (c_localStream cl) →
  c_peers cl !! p = None →
  createdDescription o = Some d →
  (handlePeerJoin cfg cl p k o st).2 = sendSignalingMessage cfg offer d (Some p).
Proof.
  intros Ha Hs Hcl Ho. unfold handlePeerJoin.
  rewrite bool_decide_eq_false_2 by (rewrite Hcl; by intros [? ?]).
  unfold createPeerConnection. rewrite Ha, Ho.
  by rewrite bool_decide_eq_true_2.
Qed.

(** C5 (as amended). For an anchor that holds a local stream, a [join]
    of an unknown peer whose offer cannot be created is attempted three
    times, the second and third time by the timer the failure before
    scheduled. Each attempt makes a connection, closes it and removes the
    session; a retry whose offer is created publishes it. After the third
    failure no retry is pending and the peer has no session. The sessions
    of the other peers are what they were, nothing was published, and the
    [error] the hook returns is what it was: the failure is logged only. *)
Theorem C5_offer_retried_twice_then_dropped (m : SignalingMessage) (o1 o2 o3 : Oracle)
    (st : State) :
  isAnchor cfg = true →
  is_Some (localStream st) →
  type m = join →
  from m ≠ userId cfg →
  peers st !! from m = None →
  createdDescription o1 = None →
  createdDescription o2 = None →
  createdDescription o3 = None →
  let p := from m in
  let n := length (timers st) in
  let failed :=
    close (newConnection p
             match localStream st with
             | Some r => length (default [] (streams st !! r))
             | None => 0
             end) in
  let st1 := (step cfg (Signaling m o1) st).1 in
  let st2 := (step cfg (TimerFired n o2) st1).1 in
  let st3 := (step cfg (TimerFired n o3) st2).1 in
  (peers st1 = peers st ∧ conns st1 = conns st ++ [failed] ∧
   timers st1 = timers st ++ [RetryJoin (committed st) p 1]) ∧
  (peers st2 = peers st ∧ conns st2 = conns st ++ [failed; failed] ∧
   timers st2 = timers st ++ [RetryJoin (committed st) p 2]) ∧
  (peers st3 = peers st ∧ conns st3 = conns st ++ [failed; failed; failed] ∧
   timers st3 = timers st) ∧
  (∀ o d, createdDescription o = Some d →
     (step cfg (TimerFired n o) st1).2 = sendSignalingMessage cfg offer d (Some p)) ∧
  run cfg [Signaling m o1; TimerFired n o2; TimerFired n o3] st = (st3, []) ∧
  error st3 = error st.
Proof.
  intros Ha Hs Hty Hfrom Hp Ho1 Ho2 Ho3. cbv zeta.
  assert (Hstep1 : step cfg (Signaling m o1) st =
                   handlePeerJoin cfg (committed st) (from m) 0 o1 st).
  { simpl. unfold handleSignalingMessage.
    rewrite bool_decide_eq_false_2 by done. by rewrite Hty. }
  unfold run. rewrite Hstep1, (failed_attempt (committed st) (from m) 0 o1 st) by done.
  cbn [fst snd]. rewrite bool_decide_eq_true_2 by lia.
  match goal with |- context [step cfg _ ?s] => set (st1 := s) end.
  assert (Hstep2 : ∀ o, step cfg (TimerFired (length (timers st)) o) st1 =
            handlePeerJoin cfg (committed st) (from m) 1 o
              (setTimers (λ _, timers st) st1)).
  { intros o. unfold step. subst st1. cbn [timers].
    rewrite list_lookup_middle by done. unfold fire, setTimers. cbn.
    by rewrite delete_snoc. }
  rewrite !Hstep2, (failed_attempt (committed st) (from m) 1 o2) by done.
  cbn [fst snd]. rewrite bool_decide_eq_true_2 by lia.
  match goal with |- context [step cfg (TimerFired _ o3) ?s] => set (st2 := s) end.
  assert (Hstep3 : step cfg (TimerFired (length (timers st)) o3) st2 =
            handlePeerJoin cfg (committed st) (from m) 2 o3
              (setTimers (λ _, timers st) st2)).
  { unfold step. subst st2. cbn [timers setTimers].
    rewrite list_lookup_middle by done. unfold fire, setTimers. cbn.
    by rewrite delete_snoc. }
  rewrite !Hstep3, (failed_attempt (committed st) (from m) 2 o3) by done.
  cbn [fst snd]. change (bool_decide (2 < 2)) with false. cbv iota.
  split_and!;
    try (subst st1 st2; cbn; rewrite <- ?app_assoc; done).
  intros o d Hd. rewrite Hstep2. by apply created_offer_published.
Qed.

End Retry.

(** ** The peers the hook reports *)

Section Reported.

Variable cfg : Config.

Lemma connectedPeers_spec (st : State) (p : string) :
  p ∈ connectedPeers st ↔ is_Some (peers st !! p).
Proof.
  unfold connectedPeers. rewrite list_elem_of_fmap. split.
  - intros ([q peer] & -> & Hin). apply elem_of_map_to_list in Hin. by eexists.
  - intros [peer Hp]. exists (p, peer). split; [done|]. by apply elem_of_map_to_list.
Qed.

(** The session and the connection that the first contact of [p] leaves. *)
Lemma first_contact (m : SignalingMessage) (o : Oracle) (st : State) :
  from m ≠ userId cfg →
  peers st !! from m = None →
  negotiates cfg m o st = true →
  let st' := (step cfg (Signaling m o) st).1 in
  (∃ peer c, peers st' = <[from m := peer]> (peers st) ∧
     conns st' !! connection peer = Some c ∧ connectionState c = cs_new).
Proof.
  intros Hfrom Hp Hneg. simpl. unfold handleSignalingMessage.
  rewrite bool_decide_eq_false_2 by done.
  unfold negotiates in Hneg. destruct (type m); try done.
  - apply andb_true_iff in Hneg as [Hok Hd]. apply bool_decide_eq_true in Hd as [a Ha].
    unfold handleOffer. rewrite bool_decide_eq_false_2 by (rewrite Hp; by intros [? ?]).
    unfold createPeerConnection. rewrite Hok, Ha. unfold processQueued. simpl.
    rewrite lookup_insert_eq. simpl. rewrite insert_insert_eq.
    eexists _, _. split; [done|]. simpl.
    rewrite !list_lookup_alter_eq, list_lookup_middle by done. done.
  - unfold handlePeerJoin. simpl.
    rewrite bool_decide_eq_false_2 by (rewrite Hp; by intros [? ?]).
    unfold createPeerConnection.
    destruct (isAnchor cfg && bool_decide (is_Some (localStream st))) eqn:Hoffer.
    + simpl in Hneg. apply bool_decide_eq_true in Hneg as [d Hd]. rewrite Hd. simpl.
      eexists _, _. split; [done|]. simpl.
      rewrite list_lookup_alter_eq, list_lookup_middle by done. done.
    + simpl. eexists _, _. split; [done|]. simpl.
      rewrite list_lookup_middle by done. done.
Qed.

(** C10. The list returned as [connectedPeers] holds exactly the keys
    of [peers], each once. The first [join] or [offer] of a peer that goes
    through puts the peer in the list although its connection is still in
    the state [new], and leaves the other peers in or out of the list as
    they were; a peer is out of the list only when it has no session. *)
Theorem C10_connectedPeers_are_the_sessions (m : SignalingMessage) (o : Oracle) (st : State) :
  from m ≠ userId cfg →
  peers st !! from m = None →
  negotiates cfg m o st = true →
  let st' := (step cfg (Signaling m o) st).1 in
  (∀ s p, p ∈ connectedPeers s ↔ is_Some (peers s !! p)) ∧
  (∀ s, NoDup (connectedPeers s)) ∧
  (from m ∉ connectedPeers st) ∧
  (from m ∈ connectedPeers st') ∧
  (∃ peer c, peers st' !! from m = Some peer ∧
     conns st' !! connection peer = Some c ∧ connectionState c = cs_new) ∧
  (∀ q, q ≠ from m → (q ∈ connectedPeers st' ↔ q ∈ connectedPeers st)).
Proof.
  intros Hfrom Hp Hneg.
  destruct (first_contact m o st Hfrom Hp Hneg) as (peer & c & Hpeers & Hc & Hs).
  cbv zeta. split_and!.
  - apply connectedPeers_spec.
  - intros s. apply NoDup_fst_map_to_list.
  - rewrite connectedPeers_spec, Hp. by intros [? ?].
  - rewrite connectedPeers_spec, Hpeers, lookup_insert_eq. by eexists.
  - exists peer, c. by rewrite Hpeers, lookup_insert_eq.
  - intros q Hq. by rewrite !connectedPeers_spec, Hpeers, lookup_insert_ne.
Qed.

End Reported.

(** ** The recipient of a message *)

Section Recipient.

Variable cfg : Config.

(** A message whose sender is the local user is ignored. *)
Lemma own_message_ignored (m : SignalingMessage) (o : Oracle) (st : State) :
  from m = userId cfg → step cfg (Signaling m o) st = (st, []).
Proof.
  intros Hfrom. simpl. unfold handleSignalingMessage.
  by rewrite bool_decide_eq_true_2.
Qed.

(** The handler never reads the [to] of a message: the same message with
    any other recipient is handled in the same way. *)
Lemma recipient_not_read (m : SignalingMessage) (t : option string) (o : Oracle) (st : State) :
  step cfg (Signaling {| type := type m; data := data m; from := from m; to := t;
                         room_id := room_id m |} o) st =
  step cfg (Signaling m o) st.
Proof. done. Qed.

(** The other hook receives a row only when its [to_user] is the local
    user: the filter of its subscription drops the others. *)
Lemma filtered_by_subscription (wcfg : WebRTC.Config) (row : WebRTC.SignalingMessage)
    (o : Oracle) (st : WebRTC.State) :
  WebRTC.to_user row ≠ WebRTC.userId wcfg →
  WebRTC.deliver wcfg row o st = (st, []).
Proof.
  intros Hto. unfold WebRTC.deliver, WebRTC.subscribed.
  destruct (WebRTC.signalingSubscription st); [|done].
  rewrite (bool_decide_eq_false_2 (WebRTC.to_user row = _)) by done.
  by rewrite andb_false_r.
Qed.

End Recipient.

(** C3 (the code departs from it). An offer that alice addresses to bob
    reaches carol, who is neither: carol's hook does not ignore it but
    opens a session for alice and publishes an answer to her. In general
    the result of handling a message does not depend on its [to]. *)
Theorem C3_offer_for_another_recipient_is_handled :
  let m := message offer (Description "offer for bob") "alice" (Some "bob") in
  let o := resolves (Description "answer of carol") in
  connectedPeers (step carol (Signaling m o) initial).1 = ["alice"] ∧
  (step carol (Signaling m o) initial).2 =
    [message answer (Description "answer of carol") "carol" (Some "alice")] ∧
  (∀ cfg m t o st,
     step cfg (Signaling {| type := type m; data := data m; from := from m; to := t;
                            room_id := room_id m |} o) st =
     step cfg (Signaling m o) st).
Proof.
  split; [by vm_compute|]. split; [by vm_compute|].
  intros cfg m t o st. apply recipient_not_read.
Qed.

(** ** The role decides who offers *)

Section Policy.

(** One iteration of the loop of [startCall] that does not throw. *)
Lemma offerAll_cons (wcfg : WebRTC.Config) (captured : option nat) (tracks : nat)
    (anchorId : string) (rest : list string) (d : Data) (offers : list (option Data))
    (st : WebRTC.State) :
  WebRTC.offerAll wcfg captured tracks (anchorId :: rest) (Some d :: offers) st =
    let created := WebRTC.createPeerConnection captured anchorId st in
    let st3 := WebRTC.setConns (alter (setLocalDescription d) created.2)
                 (WebRTC.setConns (alter (addTracks tracks) created.2) created.1) in
    let r := WebRTC.offerAll wcfg captured tracks rest offers st3 in
    (r.1.1, offerRow wcfg anchorId d :: r.1.2, r.2).
Proof.
  cbn [WebRTC.offerAll]. unfold WebRTC.createPeerConnection. cbv zeta. cbn [fst snd].
  by destruct (WebRTC.offerAll _ _ _ _ _ _) as [[st4 out] ok].
Qed.

(** When every promise resolves, the loop of [startCall] offers to each
    of the users it is given, in order. *)
Lemma offerAll_offers_to_all (wcfg : WebRTC.Config) (captured : option nat) (tracks : nat)
    (others : list string) :
  ∀ (ds : list Data) (st : WebRTC.State),
    length ds = length others →
    (WebRTC.offerAll wcfg captured tracks others (Some <$> ds) st).1.2 =
      zip_with (offerRow wcfg) others ds ∧
    (WebRTC.offerAll wcfg captured tracks others (Some <$> ds) st).2 = true.
Proof.
  induction others as [|anchorId others IH]; intros ds st Hlen.
  - by destruct ds.
  - destruct ds as [|d ds]; [done|].
    rewrite fmap_cons, offerAll_cons. cbv zeta. cbn [fst snd zip_with].
    injection Hlen as Hlen.
    match goal with |- context [WebRTC.offerAll _ _ _ _ _ ?s] =>
      destruct (IH ds s Hlen) as [Hout Hok] end.
    by rewrite Hout, Hok.
Qed.

(** C8 (as amended). Whether the hook [useVoiceCall] offers to a peer
    that joins is decided by its role argument and by nothing else it is
    given: it offers exactly when the participant is an anchor that holds a
    local stream. Offering to every other participant is what the start of
    a call does in the other hook, [useWebRTC], for the users it is given. *)
Theorem C8_offers_follow_the_role (cfg : Config) (m : SignalingMessage) (o : Oracle)
    (d : Data) (st : State) :
  type m = join →
  from m ≠ userId cfg →
  peers st !! from m = None →
  createdDescription o = Some d →
  (step cfg (Signaling m o) st).2 =
    (if isAnchor cfg && bool_decide (is_Some (localStream st))
     then sendSignalingMessage cfg offer d (Some (from m))
     else []) ∧
  (∀ wcfg anchorUsers ds o' stream wst,
     userMedia o' = Some stream →
     length ds = length (filter (λ id, id ≠ WebRTC.userId wcfg) anchorUsers) →
     (WebRTC.startCall wcfg anchorUsers o' (Some <$> ds) wst).1.2 =
       zip_with (offerRow wcfg) (filter (λ id, id ≠ WebRTC.userId wcfg) anchorUsers) ds ∧
     (WebRTC.startCall wcfg anchorUsers o' (Some <$> ds) wst).2 = true).
Proof.
  intros Hty Hfrom Hp Hd. split.
  - simpl. unfold handleSignalingMessage.
    rewrite bool_decide_eq_false_2 by done. rewrite Hty.
    unfold handlePeerJoin. simpl.
    rewrite bool_decide_eq_false_2 by (rewrite Hp; by intros [? ?]).
    unfold createPeerConnection. rewrite Hd.
    by destruct (isAnchor cfg && bool_decide (is_Some (localStream st))).
  - intros wcfg anchorUsers ds o' stream wst Hmedia Hlen.
    unfold WebRTC.startCall. rewrite Hmedia.
    match goal with |- context [WebRTC.offerAll _ ?c ?t ?l _ ?s] =>
      destruct (offerAll_offers_to_all wcfg c t l ds s Hlen) as [Hout Hok];
      destruct (WebRTC.offerAll wcfg c t l (Some <$> ds) s) as [[st2 out] ok] end.
    cbn [fst snd] in *. by subst.
Qed.

End Policy.

(** C8 (counterexample). No configuration of [useVoiceCall] makes a
    participant that is not an anchor publish an offer, in any state and on
    any event: the mesh in which every participant offers is not one of
    its configurations. *)
Lemma C8_no_configuration_makes_an_audience_offer :
  ¬ ∃ (cfg : Config) (e : Event) (st : State) (m : SignalingMessage),
      isAnchor cfg = false ∧ m ∈ (step cfg e st).2 ∧ type m = offer.
Proof.
  intros (cfg & e & st & m & Hrole & Hm & Hty).
  apply step_published in Hm. rewrite Hty in Hm. destruct Hm as [Ha _]. congruence.
Qed.

(** C5 (counterexample). The anchor alice fails three times to create
    the offer for bob: bob is dropped, and the [error] of the hook is still
    the empty string, so nothing tells the page of the failure. *)
Lemma C5_failure_is_not_surfaced :
  let st' := (run alice [Signaling (message join (JoinInfo false) "bob" None) rejects;
                         TimerFired 0 rejects; TimerFired 0 rejects] (inCall alice)).1 in
  peers st' !! "bob" = None ∧ timers st' = [] ∧ error st' = "".
Proof. by vm_compute. Qed.

(** [endCall] of the other hook releases in the same way: no connection
    is kept, those it held are closed, the tracks of the local stream are
    stopped and its reference is cleared. *)
Lemma endCall_releases (wcfg : WebRTC.Config) (st : WebRTC.State) :
  let st' := (WebRTC.endCall wcfg st).1 in
  WebRTC.peerConnections st' = ∅ ∧
  WebRTC.localStream st' = None ∧
  WebRTC.isConnected st' = false ∧
  (∀ user pc c, WebRTC.peerConnections st !! user = Some pc →
     WebRTC.conns st' !! pc = Some c → connectionState c = cs_closed) ∧
  (∀ r s, WebRTC.localStream st = Some r → WebRTC.streams st' !! r = Some s →
     Forall (λ t, stopped t = true) s).
Proof.
  simpl. split_and!; try done.
  - intros user pc c Hpc.
    change (foldr _ _ ?l) with (closeAll l (WebRTC.conns st)).
    rewrite closeAll_lookup. rewrite decide_True.
    + destruct (WebRTC.conns st !! pc); simpl; [|done]. by intros [= <-].
    + apply list_elem_of_fmap. exists (user, pc). split; [done|].
      by apply elem_of_map_to_list.
  - intros r s ->. rewrite list_lookup_alter_eq.
    destruct (WebRTC.streams st !! r); simpl; [|done].
    intros [= <-]. apply Forall_fmap. by apply Forall_true.
Qed.

(** ** The theorems at work

    Each theorem that has hypotheses is used once on a run of the hook of
    alice, bob or carol. *)


(** The retry of a failed offer is outside this: it runs in the closure
    of the failed attempt, in which the peer has no session, so it does not
    see a session made in between and replaces it, leaving the connection
    of that session open. Alice fails to offer to bob, is then offered a
    connection by bob, and retries: bob has one session and two open
    connections. *)
Example retry_replaces_a_session :
  let es := [Signaling (message join (JoinInfo true) "bob" None) rejects;
             Signaling (message offer (Description "offer of bob") "bob" (Some "alice"))
               (resolves (Description "answer of alice"));
             TimerFired 0 (resolves (Description "offer of alice"))] in
  let st' := (run alice es (inCall alice)).1 in
  connectedPeers st' = ["bob"] ∧ length (openConnections "bob" st') = 2.
Proof. by vm_compute. Qed.

(** Alice has offered to bob; bob sends two candidates, its answer, and a
    third candidate. *)
Lemma C2_candidates_of_bob :
  let st := (run alice [Signaling (message join (JoinInfo false) "bob" None)
                          (resolves (Description "offer of alice"))] (inCall alice)).1 in
  let candidate s := (message ice_candidate (Candidate s) "bob" (Some "alice"), rejects) in
  let a := message answer (Description "answer of bob") "bob" (Some "alice") in
  let st3 := (run alice (signals [candidate "1"; candidate "2"] ++
                         [Signaling a (resolves (Description "unused"))] ++
                         signals [candidate "3"]) st).1 in
  ∃ c3, conns st3 !! 0 = Some c3 ∧
        remoteDescription c3 = Some (Description "answer of bob") ∧
        addedCandidates c3 = [Candidate "1"; Candidate "2"; Candidate "3"].
Proof.
  cbv zeta.
  destruct (C2_queue_then_flush alice "bob"
              {| id := "bob"; connection := 0; stream := None; iceCandidatesQueue := [] |}
              (setLocalDescription (Description "offer of alice") (newConnection "bob" 1))
              [(message ice_candidate (Candidate "1") "bob" (Some "alice"), rejects);
               (message ice_candidate (Candidate "2") "bob" (Some "alice"), rejects)]
              [(message ice_candidate (Candidate "3") "bob" (Some "alice"), rejects)]
              (message answer (Description "answer of bob") "bob" (Some "alice"))
              (resolves (Description "unused"))
              (run alice [Signaling (message join (JoinInfo false) "bob" None)
                            (resolves (Description "offer of alice"))] (inCall alice)).1)
    as (_ & _ & (peer3 & c3 & _ & _ & _ & Hc3 & Hr3 & Ha3));
    [done|by vm_compute|by vm_compute|done|repeat constructor|repeat constructor|
     done|done|done|].
  exists c3. split; [|done]. revert Hc3. by vm_compute.
Defined.

(** Bob, who is not an anchor, joins, sees alice join and is offered a
    connection by her: bob publishes its join and an answer, no offer. *)
Lemma C4_bob_never_offers :
  Forall (λ m, type m ≠ offer)
    (run bob [JoinCall (resolves (Description "unused"));
              Signaling (message join (JoinInfo true) "alice" None)
                (resolves (Description "unused"));
              Signaling (message offer (Description "offer of alice") "alice" (Some "bob"))
                (resolves (Description "answer of bob"))] (inCall bob)).2.
Proof. apply (C4_receiver_never_offers bob). reflexivity. Defined.

(** Alice fails three times to create the offer for bob. *)
Lemma C5_alice_gives_up_on_bob :
  let m := message join (JoinInfo false) "bob" None in
  run alice [Signaling m rejects; TimerFired 0 rejects; TimerFired 0 rejects] (inCall alice) =
    ((step alice (TimerFired 0 rejects)
        (step alice (TimerFired 0 rejects)
           (step alice (Signaling m rejects) (inCall alice)).1).1).1, []).
Proof.
  cbv zeta.
  apply (C5_offer_retried_twice_then_dropped alice
           (message join (JoinInfo false) "bob" None) rejects rejects rejects
           (inCall alice)); done.
Defined.

(** Alice is refused the microphone. *)
Lemma C7_alice_is_refused_the_microphone :
  (joinCall alice rejects initial).1 =
    setError "Failed to access microphone. Please check your permissions." initial ∧
  (joinCall alice rejects initial).2 = [].
Proof.
  destruct (C7_joinCall_media_denied alice rejects initial eq_refl eq_refl eq_refl eq_refl)
    as [Heq _].
  by rewrite Heq.
Defined.

(** Alice, an anchor in the call, offers to bob when bob joins. *)
Lemma C8_alice_offers_to_bob :
  (step alice (Signaling (message join (JoinInfo false) "bob" None)
                 (resolves (Description "offer of alice"))) (inCall alice)).2 =
    [message offer (Description "offer of alice") "alice" (Some "bob")].
Proof.
  destruct (C8_offers_follow_the_role alice (message join (JoinInfo false) "bob" None)
              (resolves (Description "offer of alice")) (Description "offer of alice")
              (inCall alice) eq_refl) as [Hout _]; [done..|].
  rewrite Hout. by vm_compute.
Defined.

(** Bob is reported to alice as soon as it has joined. *)
Lemma C10_bob_is_reported :
  "bob" ∈ connectedPeers
    (step alice (Signaling (message join (JoinInfo false) "bob" None)
                   (resolves (Description "offer of alice"))) (inCall alice)).1.
Proof.
  destruct (C10_connectedPeers_are_the_sessions alice
              (message join (JoinInfo false) "bob" None)
              (resolves (Description "offer of alice")) (inCall alice))
    as (_ & _ & _ & Hin & _); [done|by vm_compute|by vm_compute|].
  exact Hin.
Defined.

(** ** The local operations on a run *)

(** Alice, in a call with bob, mutes herself: bob is still reported, the
    track is disabled and nothing is published. *)
Example alice_mutes :
  let st := (run alice [Signaling (message join (JoinInfo false) "bob" None)
                          (resolves (Description "offer of alice"))] (inCall alice)).1 in
  connectedPeers (toggleMute alice st) = ["bob"] ∧
  isMuted (toggleMute alice st) = true ∧
  streams (toggleMute alice st) = [[ {| audio := true; enabled := false; stopped := false |} ]] ∧
  toggleMute alice (toggleMute alice st) = st.
Proof. by vm_compute. Qed.

(** Alice, in a call with bob, leaves: the leave is announced, nobody is
    reported, the connection to bob is closed and the microphone track is
    stopped. *)
Example alice_leaves :
  let st := (run alice [Signaling (message join (JoinInfo false) "bob" None)
                          (resolves (Description "offer of alice"))] (inCall alice)).1 in
  (leaveCall alice st).2 = [message leave Empty "alice" None] ∧
  connectedPeers (leaveCall alice st).1 = [] ∧
  connectionState <$> conns (leaveCall alice st).1 = [cs_closed] ∧
  streams (leaveCall alice st).1 = [[ {| audio := true; enabled := true; stopped := true |} ]] ∧
  localStream (leaveCall alice st).1 = None.
Proof. by vm_compute. Qed.

(** Carol ignores what she published herself. *)
Example carol_ignores_herself :
  step carol (Signaling (message join (JoinInfo false) "carol" None)
                (resolves (Description "unused"))) (inCall carol) = (inCall carol, []).
Proof. by apply own_message_ignored. Qed.

(** ** Further properties of [useVoiceCall] *)

Section Channel.

Variable cfg : Config.

Lemma sendSignalingMessage_origin (ty : MessageType) (d : Data) (target : option string)
    (m : SignalingMessage) :
  m ∈ sendSignalingMessage cfg ty d target →
  from m = userId cfg ∧ room_id m = roomId cfg ∧ signalingChannel cfg = true ∧
  type m = ty ∧ to m = target.
Proof.
  unfold sendSignalingMessage. destruct (signalingChannel cfg).
  - by intros ->%list_elem_of_singleton.
  - by intros ?%elem_of_nil.
Qed.

(** Whatever a step publishes went through [sendSignalingMessage], with a
    recipient for an offer, an answer or a candidate and none for a join or
    a leave. *)
Lemma step_sends (e : Event) (st : State) (m : SignalingMessage) :
  m ∈ (step cfg e st).2 →
  ∃ ty d target, m ∈ sendSignalingMessage cfg ty d target ∧
    match ty with
    | offer | answer | ice_candidate => is_Some target
    | join | leave => target = None
    end.
Proof.
  destruct e as [m' o|i o|o| | |h d|h r|h s restartIce]; simpl.
  - unfold handleSignalingMessage. case_bool_decide; [by intros ?%elem_of_nil|].
    destruct (type m').
    + unfold handleOffer. case_bool_decide; [by intros ?%elem_of_nil|].
      destruct (createPeerConnection _ _ _) as [st1 c].
      destruct (remoteDescriptionOk o); [|by intros ?%elem_of_nil].
      destruct (createdDescription o) as [a|]; simpl; [|by intros ?%elem_of_nil].
      intros Hm. by eexists answer, _, _.
    + unfold handleAnswer. destruct (peers st !! from m'); [|by intros ?%elem_of_nil].
      destruct (remoteDescriptionOk o); by intros ?%elem_of_nil.
    + unfold handleIceCandidate. destruct (peers st !! from m'); [|by intros ?%elem_of_nil].
      case_bool_decide; by intros ?%elem_of_nil.
    + unfold handlePeerJoin. case_bool_decide; [by intros ?%elem_of_nil|].
      destruct (createPeerConnection _ _ _) as [st1 c].
      destruct (isAnchor cfg && _); [|by intros ?%elem_of_nil].
      destruct (createdDescription o) as [d|]; simpl.
      * intros Hm. by eexists offer, _, _.
      * try case_bool_decide; by intros ?%elem_of_nil.
    + by intros ?%elem_of_nil.
  - destruct (timers st !! i) as [[cl p n|h]|]; simpl; [| |by intros ?%elem_of_nil].
    + unfold handlePeerJoin. case_bool_decide; [by intros ?%elem_of_nil|].
      destruct (createPeerConnection _ _ _) as [st1 c].
      destruct (isAnchor cfg && _); [|by intros ?%elem_of_nil].
      destruct (createdDescription o) as [d|]; simpl.
      * intros Hm. by eexists offer, _, _.
      * try case_bool_decide; by intros ?%elem_of_nil.
    + destruct (conns st !! h) as [c|]; [|by intros ?%elem_of_nil].
      case_bool_decide; by intros ?%elem_of_nil.
  - unfold joinCall. destruct (isInCall st || isConnecting st); [by intros ?%elem_of_nil|].
    destruct (isAnchor cfg); [destruct (userMedia o)|]; simpl;
      try (by intros ?%elem_of_nil); intros Hm; by eexists join, _, _.
  - unfold leaveCall. destruct (isInCall st); simpl; [|by intros ?%elem_of_nil].
    intros Hm. by eexists leave, _, _.
  - by intros ?%elem_of_nil.
  - destruct (conns st !! h) as [c|]; [|by intros ?%elem_of_nil].
    destruct (isOpen c); [|by intros ?%elem_of_nil].
    unfold onicecandidate. intros Hm. by eexists ice_candidate, _, _.
  - destruct (conns st !! h) as [c|]; [|by intros ?%elem_of_nil].
    destruct (isOpen c); by intros ?%elem_of_nil.
  - destruct (conns st !! h) as [c|]; [|by intros ?%elem_of_nil].
    destruct (isOpen c && _); by intros ?%elem_of_nil.
Qed.

(** X1. Every message the hook publishes, on any sequence of events from
    any state, carries the local user as sender and the room of the hook;
    a hook whose room or user is empty has no channel and publishes
    nothing at all. *)
Theorem X1_published_as_the_local_user (es : list Event) (st : State) :
  Forall (λ m, from m = userId cfg ∧ room_id m = roomId cfg) (run cfg es st).2 ∧
  (roomId cfg = "" ∨ userId cfg = "" → (run cfg es st).2 = []).
Proof.
  assert (Hall : ∀ m, m ∈ (run cfg es st).2 →
            from m = userId cfg ∧ room_id m = roomId cfg ∧ signalingChannel cfg = true).
  { intros m (e & st0 & _ & Hm)%run_published.
    apply step_sends in Hm as (ty & d & t & Hm & _).
    by apply sendSignalingMessage_origin in Hm as (? & ? & ? & _). }
  split.
  - apply Forall_forall. intros m Hm. by destruct (Hall m Hm) as (? & ? & _).
  - intros Hempty. destruct (run cfg es st).2 as [|m out] eqn:Hout; [done|].
    destruct (Hall m) as (_ & _ & Hch); [by left|].
    unfold signalingChannel in Hch. apply andb_true_iff in Hch as [Hr Hu].
    apply bool_decide_eq_true in Hr. apply bool_decide_eq_true in Hu.
    by destruct Hempty.
Qed.

(** X2. Every offer, answer and candidate the hook publishes names a
    recipient, and every join and leave is addressed to the whole room. *)
Theorem X2_published_messages_are_targeted (es : list Event) (st : State) :
  Forall targeted (run cfg es st).2.
Proof.
  apply Forall_forall. intros m (e & st0 & _ & Hm)%run_published.
  apply step_sends in Hm as (ty & d & t & Hm & Ht).
  apply sendSignalingMessage_origin in Hm as (_ & _ & _ & <- & <-).
  unfold targeted. by destruct (type m).
Qed.

(** X3. An answer or a candidate from a peer that has no session is
    dropped: the state is the same and nothing is published. So is a leave
    from a peer that has neither a session nor an audio element. *)
Theorem X3_unknown_peer_is_ignored (m : SignalingMessage) (o : Oracle) (st : State) :
  peers st !! from m = None →
  (type m = answer ∨ type m = ice_candidate → step cfg (Signaling m o) st = (st, [])) ∧
  (type m = leave → remoteAudios st !! from m = None →
     step cfg (Signaling m o) st = (st, [])).
Proof.
  intros Hp. split.
  - intros Hty. simpl. unfold handleSignalingMessage. case_bool_decide; [done|].
    destruct Hty as [-> | ->].
    + unfold handleAnswer. by rewrite Hp.
    + unfold handleIceCandidate. by rewrite Hp.
  - intros Hty Ha. simpl. unfold handleSignalingMessage. case_bool_decide; [done|].
    rewrite Hty. unfold handlePeerLeave. rewrite Hp. unfold setRemoteAudios.
    rewrite delete_id by done. by destruct st.
Qed.

(** X4. [handlePeerLeave] is idempotent. It leaves the peer without
    session and without audio element and the other peers with theirs; in
    a state where every session has its connection, the connections of the
    other sessions are as they were. *)
Theorem X4_handlePeerLeave_once_is_enough (p : string) (st : State) :
  let st' := handlePeerLeave p st in
  handlePeerLeave p st' = st' ∧
  peers st' !! p = None ∧
  remoteAudios st' !! p = None ∧
  (∀ q, q ≠ p → peers st' !! q = peers st !! q ∧
                remoteAudios st' !! q = remoteAudios st !! q) ∧
  (sessions_open st → ∀ q peer, q ≠ p → peers st !! q = Some peer →
     conns st' !! connection peer = conns st !! connection peer).
Proof.
  cbv zeta. unfold handlePeerLeave.
  destruct (peers st !! p) as [peer0|] eqn:Hp; simpl.
  - rewrite lookup_delete_eq. unfold setRemoteAudios. simpl.
    rewrite delete_delete_eq. split_and!; try done.
    + by rewrite lookup_delete_eq.
    + intros q Hq. by rewrite !lookup_delete_ne.
    + intros Hopen q peer Hq Hpeer. rewrite list_lookup_alter_ne; [done|].
      intros Heq. apply Hq. symmetry. by eapply sessions_open_inj.
  - rewrite Hp. unfold setRemoteAudios. simpl.
    rewrite delete_delete_eq. split_and!; try done.
    + by rewrite lookup_delete_eq.
    + intros q Hq. by rewrite lookup_delete_ne.
Qed.

End Channel.

Section Teardown.

Variable cfg : Config.

Lemma peers_handlePeerLeave (p : string) (st : State) :
  peers (handlePeerLeave p st) = delete p (peers st).
Proof.
  unfold handlePeerLeave. destruct (peers st !! p) eqn:Hp; simpl; [done|].
  by rewrite delete_id.
Qed.

Lemma peers_processQueued (p q : string) (st : State) :
  is_Some (peers (processQueued p st) !! q) ↔ is_Some (peers st !! q).
Proof.
  unfold processQueued. destruct (peers st !! p) as [peer|] eqn:Hp; [|done]. simpl.
  destruct (decide (p = q)) as [<-|Hne].
  - rewrite lookup_insert_eq, Hp. split; by eexists.
  - by rewrite lookup_insert_ne.
Qed.

Lemma peers_processQueued_ne (p q : string) (st : State) :
  q ≠ p → peers (processQueued p st) !! q = peers st !! q.
Proof.
  intros Hne. unfold processQueued. destruct (peers st !! p) as [peer|]; [|done]. simpl.
  by rewrite lookup_insert_ne.
Qed.




(** The hypotheses shared by the theorems on the callbacks of a
    connection: [p] has the session [peer], whose connection [c] is in the
    store, open and owned by [p]. *)
Lemma isOpen_setConnectionState (s : ConnectionState) (c : RTCPeerConnection) :
  s ≠ cs_closed → isOpen (setConnectionState s c) = true.
Proof. intros Hs. unfold isOpen. by apply bool_decide_eq_true. Qed.

(** X6. A connection reported [disconnected] is not torn down at once: a
    check is scheduled and the session stays. If the connection is still
    disconnected when the check fires, the session is removed and the
    connection closed; if it was reported [connected] in between, the check
    changes nothing. *)
Theorem X6_disconnected_grace_window (p : string) (peer : PeerConnection)
    (c : RTCPeerConnection) (restartIce : bool) (o : Oracle) (st : State) :
  peers st !! p = Some peer →
  conns st !! connection peer = Some c →
  owner c = p →
  isOpen c = true →
  let h := connection peer in
  let n := length (timers st) in
  let st1 := (step cfg (ConnectionStateChange h cs_disconnected restartIce) st).1 in
  let st2 := (step cfg (TimerFired n o) st1).1 in
  let st1' := (step cfg (ConnectionStateChange h cs_connected restartIce) st1).1 in
  let st2' := (step cfg (TimerFired n o) st1').1 in
  (peers st1 = peers st ∧ timers st1 = timers st ++ [DisconnectedCheck h]) ∧
  (peers st2 = delete p (peers st) ∧
   connectionState <$> conns st2 !! h = Some cs_closed ∧
   timers st2 = timers st) ∧
  (peers st2' = peers st ∧
   connectionState <$> conns st2' !! h = Some cs_connected ∧
   timers st2' = timers st).
Proof.
  intros Hp Hc Ho Hopen. cbv zeta.
  assert (Hst1 : (step cfg (ConnectionStateChange (connection peer) cs_disconnected restartIce) st).1
            = setTimers (λ ts, ts ++ [DisconnectedCheck (connection peer)])
                (setConns (alter (setConnectionState cs_disconnected) (connection peer)) st)).
  { simpl. by rewrite Hc, Hopen. }
  rewrite Hst1. split; [done|].
  set (st1 := setTimers _ _).
  assert (Hc1 : conns st1 !! connection peer = Some (setConnectionState cs_disconnected c)).
  { simpl. by rewrite list_lookup_alter_eq, Hc. }
  split.
  - unfold step. cbn [timers st1 setTimers setConns].
    rewrite list_lookup_middle by done.
    unfold fire. cbn [conns setTimers]. rewrite Hc1.
    rewrite bool_decide_eq_true_2 by done.
    cbn [fst snd owner setConnectionState]. rewrite Ho.
    rewrite peers_handlePeerLeave. split; [done|].
    unfold handlePeerLeave. cbn [peers setTimers st1 setConns]. rewrite Hp.
    cbn. rewrite delete_snoc. split; [|done].
    by rewrite !list_lookup_alter_eq, Hc.
  - assert (Hst1' : (step cfg (ConnectionStateChange (connection peer) cs_connected restartIce) st1).1
              = setConns (alter (setConnectionState cs_connected) (connection peer)) st1).
    { unfold step. rewrite Hc1. by rewrite isOpen_setConnectionState. }
    rewrite Hst1'. unfold step. cbn [timers st1 setTimers setConns].
    rewrite list_lookup_middle by done.
    unfold fire. cbn [conns setTimers setConns st1].
    rewrite list_lookup_alter_eq, list_lookup_alter_eq, Hc.
    subst st1. cbn. rewrite bool_decide_eq_false_2 by done.
    cbn. rewrite delete_snoc. by rewrite !list_lookup_alter_eq, Hc.
Qed.

(** X7. A connection reported [failed] keeps its session when it can
    restart ICE and loses it otherwise: the session and the audio element of
    the peer are removed and the connection is closed. No timer is
    scheduled and nothing is published either way. *)
Theorem X7_failed_connection (p : string) (peer : PeerConnection)
    (c : RTCPeerConnection) (restartIce : bool) (st : State) :
  peers st !! p = Some peer →
  conns st !! connection peer = Some c →
  owner c = p →
  isOpen c = true →
  let h := connection peer in
  let st' := (step cfg (ConnectionStateChange h cs_failed restartIce) st).1 in
  peers st' = (if restartIce then peers st else delete p (peers st)) ∧
  connectionState <$> conns st' !! h = Some (if restartIce then cs_failed else cs_closed) ∧
  remoteAudios st' = (if restartIce then remoteAudios st else delete p (remoteAudios st)) ∧
  timers st' = timers st ∧
  (step cfg (ConnectionStateChange h cs_failed restartIce) st).2 = [].
Proof.
  intros Hp Hc Ho Hopen. cbv zeta. unfold step. rewrite Hc, Hopen.
  cbn [andb]. rewrite bool_decide_eq_true_2 by done.
  unfold onconnectionstatechange.
  cbn [connectionState setConnectionState owner fst snd]. rewrite Ho.
  destruct restartIce.
  - cbn. by rewrite list_lookup_alter_eq, Hc.
  - rewrite peers_handlePeerLeave. unfold handlePeerLeave.
    cbn [peers setConns]. rewrite Hp.
    cbn. by rewrite !list_lookup_alter_eq, Hc.
Qed.

(** X8. A second [ontrack] of a connection rebinds: the state is the one
    a single event with the last stream gives, with one audio element for
    the peer, bound to the last stream, which is also the stream of the
    session. *)
Theorem X8_track_rebinds (h : nat) (c : RTCPeerConnection) (r r' : nat) (st : State) :
  conns st !! h = Some c →
  isOpen c = true →
  let st' := (step cfg (TrackEvent h r') (step cfg (TrackEvent h r) st).1).1 in
  st' = (step cfg (TrackEvent h r') st).1 ∧
  remoteAudios st' = <[owner c := r']> (remoteAudios st) ∧
  (∀ peer, peers st !! owner c = Some peer →
     ∃ peer', peers st' !! owner c = Some peer' ∧ stream peer' = Some r' ∧
              connection peer' = connection peer ∧
              iceCandidatesQueue peer' = iceCandidatesQueue peer).
Proof.
  intros Hc Hopen. cbv zeta. simpl. rewrite Hc, Hopen. simpl. rewrite Hc, Hopen. simpl.
  unfold ontrack, setPeers, setRemoteAudios. simpl.
  rewrite insert_insert_eq.
  destruct (peers st !! owner c) as [peer|] eqn:Hp.
  - rewrite lookup_insert_eq. simpl. rewrite insert_insert_eq.
    split_and!; try done.
    intros peer0 [= <-]. rewrite lookup_insert_eq. by eexists.
  - rewrite Hp. split_and!; try done.
Qed.

End Teardown.

Section Audio.

Variable cfg : Config.

Lemma audios_owned_grow (st st' : State) :
  remoteAudios st' = remoteAudios st →
  (∀ q, is_Some (peers st !! q) → is_Some (peers st' !! q)) →
  audios_owned st → audios_owned st'.
Proof. intros Ha Hp Hown q r. rewrite Ha. intros Hq. apply Hp. by eapply Hown. Qed.

Lemma audios_owned_handlePeerLeave (p : string) (st : State) :
  audios_owned st → audios_owned (handlePeerLeave p st).
Proof.
  intros Hown q r. rewrite peers_handlePeerLeave.
  assert (Ha : remoteAudios (handlePeerLeave p st) = delete p (remoteAudios st)).
  { unfold handlePeerLeave. by destruct (peers st !! p). }
  rewrite Ha. destruct (decide (p = q)) as [<-|Hne].
  - by rewrite lookup_delete_eq.
  - rewrite !lookup_delete_ne by done. apply Hown.
Qed.

Lemma audios_owned_processQueued (p : string) (st : State) :
  audios_owned st → audios_owned (processQueued p st).
Proof.
  apply audios_owned_grow.
  - unfold processQueued. by destruct (peers st !! p).
  - intros q. by rewrite peers_processQueued.
Qed.

Lemma audios_owned_new_session (p : string) (peer : PeerConnection) (st : State) :
  audios_owned st → audios_owned (setPeers (insert p peer) st).
Proof.
  apply audios_owned_grow; [done|]. intros q Hq. simpl.
  destruct (decide (p = q)) as [<-|Hne].
  - rewrite lookup_insert_eq. by eexists.
  - by rewrite lookup_insert_ne.
Qed.

Lemma audios_owned_ext (st st' : State) :
  remoteAudios st' = remoteAudios st → peers st' = peers st →
  audios_owned st → audios_owned st'.
Proof. intros Ha Hp. apply audios_owned_grow; [done|]. by rewrite Hp. Qed.

Lemma audios_owned_handlePeerJoin (cl : Closure) (p : string) (n : nat) (o : Oracle)
    (st : State) :
  audios_owned st → audios_owned (handlePeerJoin cfg cl p n o st).1.
Proof.
  intros Hown. unfold handlePeerJoin. case_bool_decide; [done|].
  unfold createPeerConnection.
  set (st2 := setPeers _ _).
  assert (Hown2 : audios_owned st2).
  { apply audios_owned_new_session. by eapply audios_owned_ext. }
  destruct (isAnchor cfg && _); [|done].
  destruct (createdDescription o) as [d|]; cbn [fst].
  - by eapply audios_owned_ext.
  - case_bool_decide; cbn [fst].
    + eapply audios_owned_ext; [..|by apply audios_owned_handlePeerLeave]; done.
    + by apply audios_owned_handlePeerLeave.
Qed.

Lemma audios_owned_handleSignalingMessage (m : SignalingMessage) (o : Oracle) (st : State) :
  audios_owned st → audios_owned (handleSignalingMessage cfg m o st).1.
Proof.
  intros Hown. unfold handleSignalingMessage. case_bool_decide; [done|].
  destruct (type m).
  - unfold handleOffer. case_bool_decide; [done|]. unfold createPeerConnection.
    set (st2 := setPeers _ _).
    assert (Hown2 : audios_owned st2).
    { apply audios_owned_new_session. by eapply audios_owned_ext. }
    destruct (remoteDescriptionOk o); cbn [fst];
      [|by apply audios_owned_handlePeerLeave].
    assert (Hown4 : audios_owned (processQueued (from m)
              (setConns (alter (setRemoteDescription (data m)) (length (conns st))) st2))).
    { apply audios_owned_processQueued. by eapply audios_owned_ext. }
    destruct (createdDescription o) as [a|]; cbn [fst].
    + by eapply audios_owned_ext.
    + by apply audios_owned_handlePeerLeave.
  - unfold handleAnswer. destruct (peers st !! from m) as [peer|]; [|done].
    destruct (remoteDescriptionOk o); cbn [fst].
    + apply audios_owned_processQueued. by eapply audios_owned_ext.
    + by apply audios_owned_handlePeerLeave.
  - unfold handleIceCandidate. destruct (peers st !! from m) as [peer|]; [|done].
    case_bool_decide; cbn [fst].
    + by eapply audios_owned_ext.
    + by apply audios_owned_new_session.
  - by apply audios_owned_handlePeerJoin.
  - by apply audios_owned_handlePeerLeave.
Qed.

Lemma audios_owned_step (e : Event) (st : State) :
  untimed e = true → connections_owned st →
  audios_owned st → audios_owned (step cfg e st).1.
Proof.
  intros He Howned Hown. destruct e as [m o|i o|o| | |h d|h r|h s restartIce]; simpl.
  - by apply audios_owned_handleSignalingMessage.
  - done.
  - unfold joinCall. destruct (isInCall st || isConnecting st); [done|].
    destruct (isAnchor cfg); [destruct (userMedia o)|]; by eapply audios_owned_ext.
  - unfold leaveCall. destruct (isInCall st); [|done]. cbn [fst].
    intros q r. simpl. by rewrite lookup_empty.
  - destruct (toggleMute_frame cfg st) as (Hp & _ & _ & _ & _ & Ha).
    by eapply audios_owned_ext.
  - destruct (conns st !! h) as [c|]; [|done]. by destruct (isOpen c).
  - destruct (conns st !! h) as [c|] eqn:Hc; [|done].
    destruct (isOpen c) eqn:Hopen; [|done]. cbn [fst].
    destruct (Howned _ _ Hc Hopen) as (peer & Hp & _).
    intros q r'. unfold ontrack. simpl. rewrite Hp.
    destruct (decide (owner c = q)) as [<-|Hne].
    + intros _. rewrite lookup_insert_eq. by eexists.
    + rewrite !lookup_insert_ne by done. apply Hown.
  - destruct (conns st !! h) as [c|]; [|done].
    destruct (isOpen c && _); [|done]. cbn [fst].
    unfold onconnectionstatechange. cbn [connectionState setConnectionState owner].
    destruct s; try (by eapply audios_owned_ext).
    destruct restartIce; [by eapply audios_owned_ext|].
    apply audios_owned_handlePeerLeave. by eapply audios_owned_ext.
Qed.

(** X9. No audio element is left behind. From a state in which
    sessions and open connections correspond and every audio element
    belongs to a peer that has a session (the initial state, for instance),
    after any sequence of messages, calls of the page and callbacks of the
    transport, every audio element still belongs to a peer that has a
    session. *)
Theorem X9_audio_elements_have_sessions (es : list Event) (st : State) :
  forallb untimed es = true →
  sessions_open st →
  connections_owned st →
  audios_owned st →
  audios_owned (run cfg es st).1.
Proof.
  revert st. induction es as [|e es IH]; intros st Hes Hopen Howned Hown; [done|].
  simpl in Hes. apply andb_true_iff in Hes as [He Hes]. simpl.
  pose proof (audios_owned_step e st He Howned Hown) as Hown1.
  destruct (sessions_wf_step cfg true e st) as [Hopen1 Howned1]; [done|by split|].
  destruct (step cfg e st) as [st1 out1].
  specialize (IH st1 Hes Hopen1 (Howned1 eq_refl) Hown1).
  by destruct (run cfg es st1) as [st2 out2].
Qed.

End Audio.

Section Media.

Variable cfg : Config.

(** The handlers of the signaling messages, the timers and the callbacks
    of the transport do not touch the call flag or the capture streams. *)
Lemma handlePeerLeave_media (p : string) (st : State) :
  isInCall (handlePeerLeave p st) = isInCall st ∧
  localStream (handlePeerLeave p st) = localStream st ∧
  streams (handlePeerLeave p st) = streams st ∧
  timers (handlePeerLeave p st) = timers st ∧
  length (conns (handlePeerLeave p st)) = length (conns st).
Proof.
  unfold handlePeerLeave. destruct (peers st !! p); simpl; [|done].
  by rewrite length_alter.
Qed.

Lemma processQueued_media (p : string) (st : State) :
  isInCall (processQueued p st) = isInCall st ∧
  localStream (processQueued p st) = localStream st ∧
  streams (processQueued p st) = streams st ∧
  timers (processQueued p st) = timers st ∧
  length (conns (processQueued p st)) = length (conns st).
Proof.
  unfold processQueued. destruct (peers st !! p); simpl; [|done].
  by rewrite length_alter.
Qed.

Lemma handlePeerJoin_media (cl : Closure) (p : string) (k : nat) (o : Oracle) (st : State) :
  isInCall (handlePeerJoin cfg cl p k o st).1 = isInCall st ∧
  localStream (handlePeerJoin cfg cl p k o st).1 = localStream st ∧
  streams (handlePeerJoin cfg cl p k o st).1 = streams st.
Proof.
  unfold handlePeerJoin. case_bool_decide; [done|]. unfold createPeerConnection.
  destruct (isAnchor cfg && _); [|done].
  destruct (createdDescription o); [done|].
  case_bool_decide; cbn [fst isInCall localStream streams setTimers];
    match goal with |- context [handlePeerLeave ?q ?s] =>
      destruct (handlePeerLeave_media q s) as (-> & -> & -> & _) end; done.
Qed.

Lemma handleSignalingMessage_media (m : SignalingMessage) (o : Oracle) (st : State) :
  isInCall (handleSignalingMessage cfg m o st).1 = isInCall st ∧
  localStream (handleSignalingMessage cfg m o st).1 = localStream st ∧
  streams (handleSignalingMessage cfg m o st).1 = streams st.
Proof.
  unfold handleSignalingMessage. case_bool_decide; [done|].
  destruct (type m).
  - unfold handleOffer. case_bool_decide; [done|]. unfold createPeerConnection.
    destruct (remoteDescriptionOk o); cbn [fst].
    + destruct (createdDescription o); cbn [fst].
      * cbn [isInCall localStream streams setConns].
        match goal with |- context [processQueued ?q ?s] =>
          destruct (processQueued_media q s) as (-> & -> & -> & _) end. done.
      * match goal with |- context [handlePeerLeave ?q ?s] =>
          destruct (handlePeerLeave_media q s) as (-> & -> & -> & _) end.
        match goal with |- context [processQueued ?q ?s] =>
          destruct (processQueued_media q s) as (-> & -> & -> & _) end. done.
    + match goal with |- context [handlePeerLeave ?q ?s] =>
        destruct (handlePeerLeave_media q s) as (-> & -> & -> & _) end. done.
  - unfold handleAnswer. destruct (peers st !! from m); [|done].
    destruct (remoteDescriptionOk o); cbn [fst].
    + match goal with |- context [processQueued ?q ?s] =>
        destruct (processQueued_media q s) as (-> & -> & -> & _) end. done.
    + by destruct (handlePeerLeave_media (from m) st) as (-> & -> & -> & _).
  - unfold handleIceCandidate. destruct (peers st !! from m); [|done].
    by case_bool_decide.
  - apply handlePeerJoin_media.
  - cbn [fst]. by destruct (handlePeerLeave_media (from m) st) as (-> & -> & -> & _).
Qed.

Lemma step_media (e : Event) (st : State) :
  match e with
  | JoinCall _ | LeaveCall | ToggleMute => True
  | _ =>
      isInCall (step cfg e st).1 = isInCall st ∧
      localStream (step cfg e st).1 = localStream st ∧
      streams (step cfg e st).1 = streams st
  end.
Proof.
  destruct e as [m o|i o|o| | |h d|h r|h s restartIce]; try done; simpl.
  - apply handleSignalingMessage_media.
  - destruct (timers st !! i) as [[cl p k|h]|]; [| |done]; simpl.
    + match goal with |- context [handlePeerJoin cfg ?c ?q ?n ?x ?s] =>
        destruct (handlePeerJoin_media c q n x s) as (-> & -> & ->) end. done.
    + destruct (conns st !! h) as [c|]; [|done]. case_bool_decide; [|done]. cbn [fst].
      match goal with |- context [handlePeerLeave ?q ?s] =>
        destruct (handlePeerLeave_media q s) as (-> & -> & -> & _) end. done.
  - destruct (conns st !! h) as [c|]; [|done]. by destruct (isOpen c).
  - destruct (conns st !! h) as [c|]; [|done]. by destruct (isOpen c).
  - destruct (conns st !! h) as [c|]; [|done].
    destruct (isOpen c && _); [|done]. cbn [fst].
    unfold onconnectionstatechange. cbn [connectionState setConnectionState owner].
    destruct s; try done. destruct restartIce; [done|].
    match goal with |- context [handlePeerLeave ?q ?s] =>
      destruct (handlePeerLeave_media q s) as (-> & -> & -> & _) end. done.
Qed.

Lemma media_wf_ext (st st' : State) :
  isInCall st' = isInCall st → localStream st' = localStream st →
  streams st' = streams st → media_wf st → media_wf st'.
Proof. unfold media_wf. by intros -> -> ->. Qed.

Lemma media_wf_joinCall (o : Oracle) (st : State) :
  media_wf st → media_wf (joinCall cfg o st).1.
Proof.
  intros Hwf. unfold joinCall.
  destruct (isInCall st) eqn:Hcall; simpl; [done|].
  destruct (isConnecting st); simpl; [done|].
  destruct Hwf as (Hidle & Hin & Hstopped). specialize (Hidle Hcall).
  destruct (isAnchor cfg); [destruct (userMedia o) as [s|]|]; simpl.
  - split_and!; simpl.
    + done.
    + intros r [= <-]. rewrite length_app. simpl. lia.
    + intros r s' [[_ Hr]|[-> _]]%lookup_snoc_Some Hne; [|done].
      apply (Hstopped r s' Hr). by rewrite Hidle.
  - split_and!; by simpl.
  - split_and!; simpl; [done|by rewrite Hidle|].
    intros r s Hr _. apply (Hstopped r s Hr). by rewrite Hidle.
Qed.

Lemma media_wf_leaveCall (st : State) :
  media_wf st → media_wf (leaveCall cfg st).1.
Proof.
  intros Hwf. unfold leaveCall.
  destruct (isInCall st) eqn:Hcall; [|done]. cbn [negb fst].
  destruct Hwf as (Hidle & Hin & Hstopped).
  destruct (localStream st) as [r|] eqn:Hr; split_and!; simpl; try done.
  - intros r' s. rewrite list_lookup_alter.
    destruct (decide (r = r')) as [<-|Hne].
    + destruct (streams st !! r); simpl; [|done]. intros [= <-] _.
      apply Forall_fmap. by apply Forall_true.
    + intros Hs _. apply (Hstopped r' s Hs). congruence.
  - intros r. by rewrite Hr.
  - intros r s Hs _. by apply (Hstopped r s Hs).
Qed.

Lemma media_wf_toggleMute (st : State) :
  media_wf st → media_wf (toggleMute cfg st).
Proof.
  intros Hwf. unfold toggleMute.
  destruct (localStream st) as [r|] eqn:Hr; [|done].
  destruct (isAnchor cfg); [|done].
  destruct (firstAudioTrack _ ≫= _) as [[i t]|]; [|done].
  destruct Hwf as (Hidle & Hin & Hstopped).
  split_and!; simpl.
  - done.
  - intros r' Hr'. rewrite length_alter. by apply Hin.
  - intros r' s Hs Hne. rewrite list_lookup_alter_ne in Hs by congruence.
    by apply (Hstopped r' s Hs).
Qed.

Lemma media_wf_step (e : Event) (st : State) :
  media_wf st → media_wf (step cfg e st).1.
Proof.
  intros Hwf. pose proof (step_media e st) as Hframe.
  destruct e as [m o|i o|o| | |h d|h r|h s restartIce];
    try (destruct Hframe as (? & ? & ?); by eapply media_wf_ext).
  - by apply media_wf_joinCall.
  - by apply media_wf_leaveCall.
  - by apply media_wf_toggleMute.
Qed.

Lemma media_wf_initial : media_wf initial.
Proof. by split_and!. Qed.

(** X10. No capture stream is leaked. From a state in which the
    capture streams are accounted for (the initial state, for instance),
    after any sequence of events they still are: a local stream is held
    only while in a call, and every other stream that was ever acquired has
    all its tracks stopped. *)
Theorem X10_capture_streams_are_released (es : list Event) (st : State) :
  media_wf st → media_wf (run cfg es st).1.
Proof.
  revert st. induction es as [|e es IH]; intros st Hwf; [done|]. simpl.
  pose proof (media_wf_step e st Hwf) as Hwf1.
  destruct (step cfg e st) as [st1 out1]. specialize (IH st1 Hwf1).
  by destruct (run cfg es st1) as [st2 out2].
Qed.

End Media.

Section Timers.

Variable cfg : Config.

Lemma handlePeerJoin_timers (cl : Closure) (p : string) (k : nat) (o : Oracle) (st : State) :
  timers (handlePeerJoin cfg cl p k o st).1 = timers st ∨
  (timers (handlePeerJoin cfg cl p k o st).1 = timers st ++ [RetryJoin cl p (k + 1)] ∧
   retry_wf cfg (RetryJoin cl p (k + 1))).
Proof.
  unfold handlePeerJoin. case_bool_decide as Hknown; [by left|].
  unfold createPeerConnection.
  destruct (isAnchor cfg) eqn:Ha; [|by left]. cbn [andb].
  case_bool_decide as Hs; [|by left].
  destruct (createdDescription o); [by left|].
  case_bool_decide as Hk; cbn [fst timers setTimers];
    match goal with |- context [handlePeerLeave ?q ?s] =>
      destruct (handlePeerLeave_media q s) as (_ & _ & _ & -> & _) end.
  - right. split; [done|]. split_and!; try done; [lia|].
    by apply eq_None_not_Some.
  - by left.
Qed.

Lemma handleSignalingMessage_timers (m : SignalingMessage) (o : Oracle) (st : State) :
  timers (handleSignalingMessage cfg m o st).1 = timers st ∨
  ∃ t, timers (handleSignalingMessage cfg m o st).1 = timers st ++ [t] ∧ retry_wf cfg t.
Proof.
  unfold handleSignalingMessage. case_bool_decide; [by left|].
  destruct (type m).
  - left. unfold handleOffer. case_bool_decide; [done|]. unfold createPeerConnection.
    destruct (remoteDescriptionOk o); cbn [fst].
    + destruct (createdDescription o); cbn [fst timers setConns].
      * match goal with |- context [processQueued ?q ?s] =>
          by destruct (processQueued_media q s) as (_ & _ & _ & -> & _) end.
      * match goal with |- context [handlePeerLeave ?q ?s] =>
          destruct (handlePeerLeave_media q s) as (_ & _ & _ & -> & _) end.
        match goal with |- context [processQueued ?q ?s] =>
          by destruct (processQueued_media q s) as (_ & _ & _ & -> & _) end.
    + match goal with |- context [handlePeerLeave ?q ?s] =>
        by destruct (handlePeerLeave_media q s) as (_ & _ & _ & -> & _) end.
  - left. unfold handleAnswer. destruct (peers st !! from m); [|done].
    destruct (remoteDescriptionOk o); cbn [fst].
    + match goal with |- context [processQueued ?q ?s] =>
        by destruct (processQueued_media q s) as (_ & _ & _ & -> & _) end.
    + by destruct (handlePeerLeave_media (from m) st) as (_ & _ & _ & -> & _).
  - left. unfold handleIceCandidate. destruct (peers st !! from m); [|done].
    by case_bool_decide.
  - destruct (handlePeerJoin_timers (committed st) (from m) 0 o st) as [?|[? ?]];
      [by left|right; by eexists].
  - left. cbn [fst]. by destruct (handlePeerLeave_media (from m) st) as (_ & _ & _ & -> & _).
Qed.

Lemma retries_step (e : Event) (st : State) :
  Forall (retry_wf cfg) (timers st) → Forall (retry_wf cfg) (timers (step cfg e st).1).
Proof.
  intros Hwf. destruct e as [m o|i o|o| | |h d|h r|h s restartIce]; simpl.
  - destruct (handleSignalingMessage_timers m o st) as [->|(t & -> & Ht)]; [done|].
    apply Forall_app. split; [done|]. by apply Forall_singleton.
  - destruct (timers st !! i) as [[cl p k|h]|] eqn:Hi; [| |done].
    + cbn [fire].
      destruct (handlePeerJoin_timers cl p k o (setTimers (delete i) st))
        as [->|[-> Ht]]; simpl.
      * by apply Forall_delete.
      * apply Forall_app. split; [by apply Forall_delete|]. by apply Forall_singleton.
    + cbn [fire]. destruct (conns (setTimers (delete i) st) !! h) as [c|];
        [|by apply Forall_delete].
      case_bool_decide; cbn [fst]; [|by apply Forall_delete].
      match goal with |- context [handlePeerLeave ?q ?s] =>
        destruct (handlePeerLeave_media q s) as (_ & _ & _ & -> & _) end.
      by apply Forall_delete.
  - unfold joinCall. destruct (isInCall st || isConnecting st); [done|].
    by destruct (isAnchor cfg); [destruct (userMedia o)|].
  - unfold leaveCall. destruct (isInCall st); [|done]. by destruct (localStream st).
  - by destruct (toggleMute_frame cfg st) as (_ & _ & -> & _).
  - destruct (conns st !! h) as [c|]; [|done]. by destruct (isOpen c).
  - destruct (conns st !! h) as [c|]; [|done]. by destruct (isOpen c).
  - destruct (conns st !! h) as [c|]; [|done].
    destruct (isOpen c && _); [|done]. cbn [fst].
    unfold onconnectionstatechange. cbn [connectionState setConnectionState owner].
    destruct s; try done.
    + simpl. apply Forall_app. split; [done|]. by apply Forall_singleton.
    + destruct restartIce; [done|].
      match goal with |- context [handlePeerLeave ?q ?s] =>
        by destruct (handlePeerLeave_media q s) as (_ & _ & _ & -> & _) end.
Qed.

Lemma retries_run (es : list Event) (st : State) :
  Forall (retry_wf cfg) (timers st) → Forall (retry_wf cfg) (timers (run cfg es st).1).
Proof.
  revert st. induction es as [|e es IH]; intros st Hwf; [done|]. simpl.
  pose proof (retries_step e st Hwf) as Hwf1.
  destruct (step cfg e st) as [st1 out1]. specialize (IH st1 Hwf1).
  by destruct (run cfg es st1) as [st2 out2].
Qed.

(** In a closure without session of the peer, [handlePeerJoin] makes one
    connection, whatever becomes of it. *)
Lemma handlePeerJoin_attempts (cl : Closure) (p : string) (k : nat) (o : Oracle)
    (st : State) :
  c_peers cl !! p = None →
  length (conns (handlePeerJoin cfg cl p k o st).1) = S (length (conns st)).
Proof.
  intros Hcl. unfold handlePeerJoin.
  rewrite bool_decide_eq_false_2 by (rewrite Hcl; by intros [? ?]).
  unfold createPeerConnection.
  assert (Hlen : length (conns st ++ [newConnection p
                   match c_localStream cl with
                   | Some r => length (default [] (streams st !! r))
                   | None => 0
                   end]) = S (length (conns st))).
  { rewrite length_app. simpl. lia. }
  destruct (isAnchor cfg && _); [|done].
  destruct (createdDescription o).
  - cbn [fst conns setConns]. by rewrite length_alter.
  - case_bool_decide; cbn [fst conns setTimers];
      match goal with |- context [handlePeerLeave ?q ?s] =>
        destruct (handlePeerLeave_media q s) as (_ & _ & _ & _ & ->) end; done.
Qed.

(** X11. The retries stay bounded and never give up early. From a state
    whose pending retries are in order (none pending, for instance), after
    any sequence of events every pending retry is the second or third
    attempt of an anchor, and it carries a closure in which the peer has no
    session: when it fires it does not return at the test for a known peer
    but makes a new connection, whether or not the peer has got a session
    in the meantime. *)
Theorem X11_retries_are_bounded_and_blind (es : list Event) (st : State) :
  Forall (retry_wf cfg) (timers st) →
  let st' := (run cfg es st).1 in
  Forall (retry_wf cfg) (timers st') ∧
  (∀ i cl p k o, timers st' !! i = Some (RetryJoin cl p k) →
     k ≤ 2 ∧
     length (conns (step cfg (TimerFired i o) st').1) = S (length (conns st'))).
Proof.
  intros Hwf. cbv zeta. pose proof (retries_run es st Hwf) as Hwf'.
  split; [done|]. intros i cl p k o Hi.
  rewrite Forall_lookup in Hwf'. destruct (Hwf' _ _ Hi) as (_ & Hk & Hcl & _).
  split; [done|]. simpl. rewrite Hi. cbn [fire].
  by rewrite handlePeerJoin_attempts.
Qed.

(** X12. [leaveCall] does not cancel the pending timers, and a retry that
    fires after the call was left still runs: although the participant is
    not in a call, the peer gets a session again and an offer is published
    to it. *)
Theorem X12_retry_outlives_the_call (i : nat) (cl : Closure) (p : string) (k : nat)
    (o : Oracle) (d : Data) (st : State) :
  isInCall st = true →
  timers st !! i = Some (RetryJoin cl p k) →
  retry_wf cfg (RetryJoin cl p k) →
  createdDescription o = Some d →
  let st1 := (leaveCall cfg st).1 in
  let st2 := (step cfg (TimerFired i o) st1).1 in
  timers st1 = timers st ∧
  peers st1 = ∅ ∧
  isInCall st2 = false ∧
  is_Some (peers st2 !! p) ∧
  (step cfg (TimerFired i o) st1).2 = sendSignalingMessage cfg offer d (Some p).
Proof.
  intros Hcall Hi (Ha & _ & Hcl & Hs) Hd. cbv zeta.
  assert (Hleave : timers (leaveCall cfg st).1 = timers st ∧
                   peers (leaveCall cfg st).1 = ∅ ∧
                   isInCall (leaveCall cfg st).1 = false).
  { unfold leaveCall. rewrite Hcall. cbn [negb fst]. by destruct (localStream st). }
  destruct Hleave as (Ht & Hp & Hout).
  split; [done|]. split; [done|].
  unfold step. rewrite Ht, Hi. cbn [fire].
  match goal with |- context [handlePeerJoin cfg ?c ?q ?n ?x ?s] =>
    destruct (handlePeerJoin_media cfg c q n x s) as (-> & _ & _) end.
  split; [done|]. split; [|by apply created_offer_published].
  unfold handlePeerJoin.
  rewrite bool_decide_eq_false_2 by (rewrite Hcl; by intros [? ?]).
  unfold createPeerConnection. rewrite Ha, Hd.
  rewrite bool_decide_eq_true_2 by done. cbn. rewrite lookup_insert_eq. by eexists.
Qed.

End Timers.

Section Presence.

Variable cfg : Config.

(** X13. The signaling messages are handled whether or not the local
    participant is in the call: the call flag is not read, the result is the
    same up to that flag. In particular a peer that joins gets a session
    and a connection from a participant that holds no local stream, as
    one that has not joined. *)
Theorem X13_messages_are_handled_outside_a_call (m : SignalingMessage) (o : Oracle)
    (b : bool) (st : State) :
  step cfg (Signaling m o) (setIsInCall b st) =
    (setIsInCall b (step cfg (Signaling m o) st).1, (step cfg (Signaling m o) st).2) ∧
  (localStream st = None → type m = join →
   from m ≠ userId cfg → peers st !! from m = None →
   is_Some (peers (step cfg (Signaling m o) st).1 !! from m) ∧
   length (conns (step cfg (Signaling m o) st).1) = S (length (conns st))).
Proof.
  split.
  - unfold step, handleSignalingMessage. case_bool_decide; [done|].
    destruct (type m).
    + unfold handleOffer. cbn [peers setIsInCall]. case_bool_decide; [done|].
      unfold createPeerConnection. cbn [localStream streams conns setIsInCall].
      destruct (remoteDescriptionOk o).
      * unfold processQueued. cbn [peers setPeers setConns setIsInCall].
        rewrite lookup_insert_eq.
        destruct (createdDescription o); [done|].
        unfold handlePeerLeave. cbn [peers setPeers setConns setIsInCall].
        by rewrite lookup_insert_eq.
      * unfold handlePeerLeave. cbn [peers setPeers setConns setIsInCall].
        by rewrite lookup_insert_eq.
    + unfold handleAnswer. cbn [peers setIsInCall].
      destruct (peers st !! from m) as [peer|] eqn:Hp; [|done].
      destruct (remoteDescriptionOk o).
      * unfold processQueued. cbn [peers setPeers setConns setIsInCall]. by rewrite Hp.
      * unfold handlePeerLeave. cbn [peers setIsInCall]. by rewrite Hp.
    + unfold handleIceCandidate, remoteDescriptionOf. cbn [peers conns setIsInCall].
      destruct (peers st !! from m) as [peer|]; [|done]. by case_bool_decide.
    + unfold handlePeerJoin, committed. cbn [peers localStream setIsInCall c_peers c_localStream].
      case_bool_decide; [done|].
      unfold createPeerConnection. cbn [localStream streams conns setIsInCall].
      destruct (isAnchor cfg && _); [|done].
      destruct (createdDescription o); [done|].
      unfold handlePeerLeave. cbn [peers setPeers setConns setIsInCall].
      rewrite lookup_insert_eq. by case_bool_decide.
    + unfold handlePeerLeave. cbn [peers setIsInCall].
      by destruct (peers st !! from m).
  - intros Hs Hty Hfrom Hp. unfold step, handleSignalingMessage.
    rewrite bool_decide_eq_false_2 by done. rewrite Hty.
    unfold handlePeerJoin, committed. cbn [c_peers c_localStream].
    rewrite bool_decide_eq_false_2 by (rewrite Hp; by intros [? ?]).
    unfold createPeerConnection. rewrite Hs.
    rewrite (bool_decide_eq_false_2 (is_Some None)) by (by intros [? ?]).
    rewrite andb_false_r. cbn. rewrite lookup_insert_eq, length_app. simpl.
    split; [by eexists|lia].
Qed.

End Presence.

(** ** Two hooks on one channel *)

Section Handshake.

(** The offerer [a] and the answerer [b]. *)
Variables a b : Config.


End Handshake.

(** ** Joining, muting and leaving *)

Section Calls.

Variable cfg : Config.

(** X15. An anchor that joins and then leaves has announced both, in
    this order; the stream it acquired is in the store with every track
    stopped, no stream is held, no session is left (not even one made
    before joining), and the error is cleared. *)
Theorem X15_join_then_leave (o : Oracle) (s : MediaStream) (st : State) :
  isInCall st = false →
  isConnecting st = false →
  isAnchor cfg = true →
  userMedia o = Some s →
  let r := run cfg [JoinCall o; LeaveCall] st in
  r.2 = sendSignalingMessage cfg join (JoinInfo true) None ++
        sendSignalingMessage cfg leave Empty None ∧
  isInCall r.1 = false ∧
  localStream r.1 = None ∧
  streams r.1 = streams st ++ [stop <$> s] ∧
  peers r.1 = ∅ ∧
  remoteAudios r.1 = ∅ ∧
  error r.1 = "".
Proof.
  intros Hcall Hconn Ha Hm. cbv zeta. unfold run, step, joinCall.
  rewrite Hcall, Hconn, Ha, Hm. cbn [orb fst snd].
  unfold leaveCall. cbn [isInCall setIsConnecting setIsInCall negb localStream setLocalStream].
  cbn. rewrite app_nil_r. rewrite alter_snoc. done.
Qed.

Lemma firstAudioTrack_insert (s : MediaStream) (i : nat) (t t' : Track) :
  s !! i = Some t → audio t' = audio t →
  firstAudioTrack (<[i:=t']> s) = firstAudioTrack s.
Proof.
  revert i. induction s as [|t0 s IH]; intros i Hi Ha; [done|].
  destruct i as [|i]; simpl in *.
  - injection Hi as ->. by rewrite Ha.
  - by rewrite (IH i).
Qed.

Lemma flipEnabled_involutive (t : Track) : flipEnabled (flipEnabled t) = t.
Proof. destruct t as [a e s]. unfold flipEnabled. simpl. by rewrite negb_involutive. Qed.

(** X16. [toggleMute] of an audience member changes nothing. For an
    anchor it flips the first audio track of the local stream and only that
    track, and sets [isMuted] to what [enabled] was; a second [toggleMute]
    restores the streams. *)
Theorem X16_toggleMute_flips_the_first_audio_track (st : State) :
  (isAnchor cfg = false → toggleMute cfg st = st) ∧
  streams (toggleMute cfg (toggleMute cfg st)) = streams st ∧
  (∀ r s i t, isAnchor cfg = true → localStream st = Some r →
     streams st !! r = Some s → firstAudioTrack s = Some i → s !! i = Some t →
     isMuted (toggleMute cfg st) = enabled t ∧
     streams (toggleMute cfg st) !! r = Some (<[i:=flipEnabled t]> s)).
Proof.
  split_and!.
  - intros Ha. unfold toggleMute. rewrite Ha. by destruct (localStream st).
  - unfold toggleMute at 2.
    destruct (localStream st) as [r|] eqn:Hr; [|unfold toggleMute; by rewrite Hr].
    destruct (isAnchor cfg) eqn:Ha; [|unfold toggleMute; by rewrite Hr, Ha].
    destruct (streams st !! r) as [s|] eqn:Hs; simpl;
      [|unfold toggleMute; rewrite Hr, Ha, Hs; done].
    destruct (firstAudioTrack s) as [i|] eqn:Hi; simpl;
      [|unfold toggleMute; rewrite Hr, Ha, Hs; simpl; rewrite Hi; done].
    destruct (s !! i) as [t|] eqn:Ht; simpl;
      [|unfold toggleMute; rewrite Hr, Ha, Hs; simpl; rewrite Hi; simpl; rewrite Ht; done].
    unfold toggleMute. cbn [localStream streams setIsMuted setStreams]. rewrite Hr, Ha.
    rewrite list_lookup_alter_eq, Hs. cbn [fmap option_fmap option_map default].
    unfold Datatypes.id.
    rewrite (firstAudioTrack_insert s i t (flipEnabled t)) by done. rewrite Hi.
    cbn [mbind option_bind].
    rewrite list_lookup_insert_eq by (by eapply lookup_lt_Some).
    cbn [fmap option_fmap option_map streams setIsMuted setStreams].
    rewrite list_alter_alter_eq. rewrite flipEnabled_involutive.
    apply list_eq. intros j. rewrite list_lookup_alter.
    destruct (decide (r = j)) as [<-|]; [|done]. rewrite Hs. simpl.
    by rewrite list_insert_insert_eq, list_insert_id.
  - intros r s i t Ha Hr Hs Hi Ht. unfold toggleMute.
    rewrite Hr, Ha, Hs. simpl. rewrite Hi. simpl. rewrite Ht. simpl.
    rewrite list_lookup_alter_eq, Hs. simpl.
    split; [|done]. by rewrite negb_involutive.
Qed.

End Calls.

(** ** Further properties of [useWebRTC] *)

Section Calling.

Variable wcfg : WebRTC.Config.

(** What the loop of [startCall] changes: it appends connections to the
    store, all open, one per iteration it entered, and replaces the entries
    of the users it went through; every request is an offer to one of these
    users. *)
Lemma offerAll_frame (captured : option nat) (tracks : nat) (others : list string) :
  ∀ (offers : list (option Data)) (st : WebRTC.State),
    let r := WebRTC.offerAll wcfg captured tracks others offers st in
    (WebRTC.connectedPeers r.1.1 = WebRTC.connectedPeers st ∧
     WebRTC.remoteStreams r.1.1 = WebRTC.remoteStreams st ∧
     WebRTC.localStream r.1.1 = WebRTC.localStream st ∧
     WebRTC.streams r.1.1 = WebRTC.streams st ∧
     WebRTC.isConnected r.1.1 = WebRTC.isConnected st ∧
     WebRTC.isMuted r.1.1 = WebRTC.isMuted st ∧
     WebRTC.signalingSubscription r.1.1 = WebRTC.signalingSubscription st) ∧
    (∃ news, WebRTC.conns r.1.1 = WebRTC.conns st ++ news ∧
       Forall (λ c, isOpen c = true) news ∧
       (r.2 = true → length news = length others) ∧
       (r.2 = false → length news = S (length r.1.2))) ∧
    Forall (λ req, ∃ id d, req = offerRow wcfg id d ∧ id ∈ others) r.1.2 ∧
    (∀ u, u ∉ others → WebRTC.peerConnections r.1.1 !! u = WebRTC.peerConnections st !! u) ∧
    (r.2 = true → ∀ u, u ∈ others →
       ∃ h, WebRTC.peerConnections r.1.1 !! u = Some h ∧ length (WebRTC.conns st) ≤ h).
Proof.
  induction others as [|anchorId others IH]; intros offers st.
  - cbn. split_and!; try done.
    + exists []. by rewrite app_nil_r.
    + by intros _ u ?%elem_of_nil.
  - destruct offers as [|[d|] offers].
    + cbn. split_and!; try done.
      * eexists [_]. rewrite alter_snoc. split_and!; try done. by apply Forall_singleton.
      * intros u Hu. apply not_elem_of_cons in Hu as [Hu _]. by rewrite lookup_insert_ne.
    + rewrite offerAll_cons. cbv zeta.
      match goal with |- context [WebRTC.offerAll _ _ _ _ _ ?s] =>
        destruct (IH offers s)
          as (Hf & (news & Hconns & Hopen & Hok & Hfail) & Hreq & Hpc & Hnew);
        set (r := WebRTC.offerAll wcfg captured tracks others offers s) in * end.
      cbn [fst snd]. destruct Hf as (-> & -> & -> & -> & -> & -> & ->).
      split_and!; try done.
      * rewrite Hconns. cbn. rewrite !alter_snoc, <- app_assoc.
        eexists (_ :: news). split_and!; [done| |cbn; intros; f_equal; auto|].
        -- by apply Forall_cons.
        -- intros Hr. cbn. f_equal. by apply Hfail.
      * apply Forall_cons. split.
        -- eexists _, _. split; [done|]. by left.
        -- eapply Forall_impl; [exact Hreq|]. intros req (id & d' & -> & Hin).
           eexists _, _. split; [done|]. by right.
      * intros u Hu. apply not_elem_of_cons in Hu as [Hu1 Hu2].
        rewrite (Hpc u Hu2). cbn. by rewrite lookup_insert_ne.
      * intros Hr u Hu. destruct (decide (u ∈ others)) as [Hin|Hout].
        -- destruct (Hnew Hr u Hin) as (h & Hh & Hle). exists h. split; [done|].
           cbn in Hle. rewrite !length_alter, length_app in Hle. simpl in Hle. lia.
        -- apply elem_of_cons in Hu as [->|?]; [|done].
           rewrite (Hpc anchorId Hout). cbn. rewrite lookup_insert_eq. by eexists.
    + cbn. split_and!; try done.
      * eexists [_]. rewrite alter_snoc. split_and!; try done. by apply Forall_singleton.
      * intros u Hu. apply not_elem_of_cons in Hu as [Hu _]. by rewrite lookup_insert_ne.
Qed.

(** X17. [startCall] only ever offers, under the name and in the room of
    the local user, to users of the list it is given, and never to the
    local user itself, whatever the outcome of the promises. *)
Theorem X17_startCall_offers_to_the_others (anchorUsers : list string) (o : Oracle)
    (offers : list (option Data)) (st : WebRTC.State) :
  Forall (λ req, ∃ id d, req = offerRow wcfg id d ∧
                         id ∈ anchorUsers ∧ id ≠ WebRTC.userId wcfg)
    (WebRTC.startCall wcfg anchorUsers o offers st).1.2.
Proof.
  unfold WebRTC.startCall. destruct (userMedia o) as [stream|]; [|by apply Forall_nil].
  match goal with |- context [WebRTC.offerAll _ ?c ?t ?l ?os ?s] =>
    destruct (offerAll_frame c t l os s) as (_ & _ & Hreq & _ & _);
    destruct (WebRTC.offerAll wcfg c t l os s) as [[st2 out] ok] end.
  cbn [fst snd] in *.
  assert (Hout : Forall (λ req, ∃ id d, req = offerRow wcfg id d ∧
                           id ∈ anchorUsers ∧ id ≠ WebRTC.userId wcfg) out).
  { eapply Forall_impl; [exact Hreq|]. intros req (id & d & -> & Hin).
    apply list_elem_of_filter in Hin as [Hne Hin]. by eexists _, _. }
  by destruct ok.
Qed.



End Calling.

Section Rows.

Variable wcfg : WebRTC.Config.

(** X20. [endCall] is idempotent on the state: a second call finds
    nothing to close or stop and only repeats the request to delete the
    rows of the user. After it, no row is handled any more. *)
Theorem X20_endCall_idempotent (st : WebRTC.State) :
  let st' := (WebRTC.endCall wcfg st).1 in
  WebRTC.endCall wcfg st' =
    (st', [WebRTC.DeleteFrom (WebRTC.roomId wcfg) (WebRTC.userId wcfg)]) ∧
  (∀ row o, WebRTC.deliver wcfg row o st' = (st', [])).
Proof.
  cbv zeta. split; [|done].
  unfold WebRTC.endCall. cbn [fst WebRTC.peerConnections WebRTC.localStream
    WebRTC.conns WebRTC.streams].
  by rewrite map_to_list_empty.
Qed.

(** X21. A row that passes the filter of the subscription always leaves
    a connection for its sender, whatever its type: the connection the
    sender has is used and no other is made, and a sender without one gets
    a new one, even for an answer or a candidate that nothing preceded. *)
Theorem X21_every_row_has_a_connection (captured : option nat)
    (row : WebRTC.SignalingMessage) (o : Oracle) (st : WebRTC.State) :
  WebRTC.signalingSubscription st = Some captured →
  WebRTC.subscribed wcfg row = true →
  let st' := (WebRTC.deliver wcfg row o st).1 in
  match WebRTC.peerConnections st !! WebRTC.from_user row with
  | Some pc =>
      WebRTC.peerConnections st' = WebRTC.peerConnections st ∧
      length (WebRTC.conns st') = length (WebRTC.conns st)
  | None =>
      WebRTC.peerConnections st' !! WebRTC.from_user row = Some (length (WebRTC.conns st)) ∧
      length (WebRTC.conns st') = S (length (WebRTC.conns st))
  end.
Proof.
  intros Hsub Hrow. cbv zeta. unfold WebRTC.deliver. rewrite Hsub, Hrow.
  unfold WebRTC.handleSignalingMessage.
  destruct (WebRTC.peerConnections st !! WebRTC.from_user row) as [pc|] eqn:Hpc.
  - destruct (WebRTC.type row); try done.
    + destruct (remoteDescriptionOk o); [|done].
      destruct (createdDescription o); cbn; by rewrite ?length_alter.
    + destruct (remoteDescriptionOk o); cbn; by rewrite ?length_alter.
    + cbn. by rewrite length_alter.
  - unfold WebRTC.createPeerConnection.
    assert (Hlen : ∀ x : RTCPeerConnection,
              length (WebRTC.conns st ++ [x]) = S (length (WebRTC.conns st))).
    { intros x. rewrite length_app. simpl. lia. }
    destruct (WebRTC.type row).
    + destruct (remoteDescriptionOk o); [|cbn; by rewrite lookup_insert_eq, Hlen].
      destruct (createdDescription o); cbn;
        by rewrite lookup_insert_eq, ?length_alter, Hlen.
    + destruct (remoteDescriptionOk o); cbn;
        by rewrite lookup_insert_eq, ?length_alter, Hlen.
    + cbn. by rewrite lookup_insert_eq, ?length_alter, Hlen.
    + cbn. by rewrite lookup_insert_eq, Hlen.
    + cbn. by rewrite lookup_insert_eq, Hlen.
Qed.

Lemma flipAudio_involutive (t : Track) : WebRTC.flipAudio (WebRTC.flipAudio t) = t.
Proof.
  destruct t as [[] e s]; unfold WebRTC.flipAudio, flipEnabled; simpl; [|done].
  by rewrite negb_involutive.
Qed.

(** X22. [toggleMute] of this hook is an involution: it flips every audio
    track of the local stream and negates [isMuted], and a second call
    gives back the state; without a local stream it does nothing. *)
Theorem X22_toggleMute_involutive (st : WebRTC.State) :
  WebRTC.toggleMute (WebRTC.toggleMute st) = st ∧
  (WebRTC.localStream st = None → WebRTC.toggleMute st = st) ∧
  (∀ r s, WebRTC.localStream st = Some r → WebRTC.streams st !! r = Some s →
     WebRTC.streams (WebRTC.toggleMute st) !! r = Some (WebRTC.flipAudio <$> s) ∧
     WebRTC.isMuted (WebRTC.toggleMute st) = negb (WebRTC.isMuted st)).
Proof.
  split_and!.
  - unfold WebRTC.toggleMute. destruct (WebRTC.localStream st) as [r|] eqn:Hr.
    + cbn. rewrite negb_involutive, list_alter_alter_eq.
      rewrite list_alter_id.
      * destruct st. cbn in *. by subst.
      * intros s. cbn. rewrite <- list_fmap_compose.
        rewrite <- (list_fmap_id s) at 2. apply list_fmap_ext.
        intros i t _. apply flipAudio_involutive.
    + by rewrite Hr.
  - intros Hr. unfold WebRTC.toggleMute. by rewrite Hr.
  - intros r s Hr Hs. unfold WebRTC.toggleMute. rewrite Hr. cbn.
    by rewrite list_lookup_alter_eq, Hs.
Qed.

Lemma streams_reported_ext (st st' : WebRTC.State) :
  WebRTC.connectedPeers st' = WebRTC.connectedPeers st →
  WebRTC.remoteStreams st' = WebRTC.remoteStreams st →
  streams_reported st → streams_reported st'.
Proof. unfold streams_reported. by intros -> ->. Qed.

Lemma streams_reported_step (e : WebRTC.Event) (st : WebRTC.State) :
  streams_reported st → streams_reported (WebRTC.step wcfg e st).1.
Proof.
  intros Hrep.
  destruct e as [row o|anchorUsers o offers| | |h d|h r|h s]; cbn [WebRTC.step].
  - unfold WebRTC.deliver. destruct (WebRTC.signalingSubscription st); [|done].
    destruct (WebRTC.subscribed wcfg row); [|done].
    unfold WebRTC.handleSignalingMessage.
    destruct (WebRTC.peerConnections st !! WebRTC.from_user row);
      destruct (WebRTC.type row); try done;
      try (destruct (remoteDescriptionOk o); try done);
      try (destruct (createdDescription o); try done).
  - unfold WebRTC.startCall. destruct (userMedia o) as [stream|]; [|done].
    match goal with |- context [WebRTC.offerAll _ ?c ?t ?l ?os ?s] =>
      destruct (offerAll_frame wcfg c t l os s) as ((Hcp & Hrs & _) & _);
      destruct (WebRTC.offerAll wcfg c t l os s) as [[st2 out] ok] end.
    cbn [fst snd] in *. destruct ok; by eapply streams_reported_ext.
  - split; [by apply NoDup_nil|]. intros p. cbn. rewrite lookup_empty.
    split; [by intros ?%elem_of_nil|by intros [? ?]].
  - unfold WebRTC.toggleMute. by destruct (WebRTC.localStream st).
  - destruct (WebRTC.conns st !! h) as [c|]; [|done]. by destruct (isOpen c).
  - destruct (WebRTC.conns st !! h) as [c|]; [|done].
    destruct (isOpen c); [|done]. cbn [fst].
    destruct Hrep as [Hnd Hiff]. unfold WebRTC.ontrack. split; cbn.
    + case_bool_decide as Hin; [done|].
      apply NoDup_app. split_and!; [done| |by apply NoDup_singleton].
      intros x Hx ->%list_elem_of_singleton. done.
    + intros p. destruct (decide (owner c = p)) as [<-|Hne].
      * rewrite lookup_insert_eq. split; [by eexists|]. intros _.
        case_bool_decide; [done|]. apply elem_of_app. right. by left.
      * rewrite lookup_insert_ne by done. rewrite <- Hiff.
        case_bool_decide; [done|]. rewrite elem_of_app, list_elem_of_singleton.
        split; [intros [?|?]; [done|congruence]|by left].
  - destruct (WebRTC.conns st !! h) as [c|]; [|done].
    destruct (isOpen c && _); [|done]. cbn [fst].
    unfold WebRTC.onconnectionstatechange.
    case_bool_decide; [|by eapply streams_reported_ext].
    destruct Hrep as [Hnd Hiff]. split; cbn.
    + by apply NoDup_filter.
    + intros p. rewrite list_elem_of_filter.
      destruct (decide (owner c = p)) as [<-|Hne].
      * rewrite lookup_delete_eq. split; [by intros [? _]|by intros [? ?]].
      * rewrite lookup_delete_ne by done. rewrite <- Hiff. split; [by intros [_ ?]|].
        intros Hp. split; [congruence|done].
Qed.

(** X23. The users this hook reports as connected are exactly those with
    a remote stream, each once: this holds initially and after any sequence
    of rows, calls of the page and callbacks of the transport. A user is
    reported from the first track of its connection and no longer once the
    connection is reported disconnected or failed. *)
Theorem X23_connected_peers_have_streams (es : list WebRTC.Event) (st : WebRTC.State) :
  streams_reported st → streams_reported (WebRTC.run wcfg es st).1.
Proof.
  revert st. induction es as [|e es IH]; intros st Hrep; [done|]. cbn [WebRTC.run].
  pose proof (streams_reported_step e st Hrep) as Hrep1.
  destruct (WebRTC.step wcfg e st) as [st1 out1]. specialize (IH st1 Hrep1).
  by destruct (WebRTC.run wcfg es st1) as [st2 out2].
Qed.

End Rows.

(** ** The further properties on runs of alice and bob *)

Lemma audios_owned_initial : audios_owned initial.
Proof. intros p r Hp. cbn in Hp. by rewrite lookup_empty in Hp. Qed.

Lemma streams_reported_initial : streams_reported WebRTC.initial.
Proof.
  split; [by apply NoDup_nil|]. intros p. cbn. rewrite lookup_empty.
  split; [by intros ?%elem_of_nil|by intros [? ?]].
Qed.

(** Alice, who has met nobody, drops an answer of bob. *)
Lemma X3_alice_drops_the_answer_of_a_stranger :
  step alice (Signaling (message answer (Description "answer of bob") "bob" (Some "alice"))
                (resolves (Description "unused"))) (inCall alice) = (inCall alice, []).
Proof.
  destruct (X3_unknown_peer_is_ignored alice
              (message answer (Description "answer of bob") "bob" (Some "alice"))
              (resolves (Description "unused")) (inCall alice) eq_refl) as [Hdrop _].
  apply Hdrop. by left.
Defined.


(** The connection of alice to bob is reported disconnected: the session
    of bob stays until the check fires, and is removed by it. *)
Lemma X6_bob_is_given_a_grace_window :
  let st1 := (step alice (ConnectionStateChange 0 cs_disconnected false) aliceWithBob).1 in
  let st2 := (step alice (TimerFired 0 rejects) st1).1 in
  peers st1 = peers aliceWithBob ∧ peers st2 = delete "bob" (peers aliceWithBob).
Proof.
  cbv zeta.
  destruct (X6_disconnected_grace_window alice "bob"
              {| id := "bob"; connection := 0; stream := None; iceCandidatesQueue := [] |}
              (setLocalDescription (Description "offer of alice") (newConnection "bob" 1))
              false rejects aliceWithBob eq_refl eq_refl eq_refl eq_refl)
    as ((Hp1 & _) & (Hp2 & _) & _).
  by split.
Defined.

(** The connection of alice to bob fails and cannot restart ICE: bob has
    no session any more and the connection is closed. *)
Lemma X7_the_connection_to_bob_fails :
  let st' := (step alice (ConnectionStateChange 0 cs_failed false) aliceWithBob).1 in
  peers st' = delete "bob" (peers aliceWithBob) ∧
  connectionState <$> conns st' !! 0 = Some cs_closed.
Proof.
  cbv zeta.
  destruct (X7_failed_connection alice "bob"
              {| id := "bob"; connection := 0; stream := None; iceCandidatesQueue := [] |}
              (setLocalDescription (Description "offer of alice") (newConnection "bob" 1))
              false aliceWithBob eq_refl eq_refl eq_refl eq_refl)
    as (Hp & Hc & _).
  by split.
Defined.

(** Two tracks of bob reach alice: the audio element of bob is bound to
    the stream of the second. *)
Lemma X8_bob_sends_two_tracks :
  remoteAudios (step alice (TrackEvent 0 8)
                  (step alice (TrackEvent 0 7) aliceWithBob).1).1 =
    <["bob" := 8]> (remoteAudios aliceWithBob).
Proof.
  destruct (X8_track_rebinds alice 0
              (setLocalDescription (Description "offer of alice") (newConnection "bob" 1))
              7 8 aliceWithBob eq_refl eq_refl) as (_ & Ha & _).
  exact Ha.
Defined.

(** Bob joins, sends a track and leaves: alice keeps no audio element
    without a session. *)
Lemma X9_alice_keeps_no_audio_of_bob :
  audios_owned
    (run alice [JoinCall (resolves (Description "unused"));
                Signaling (message join (JoinInfo false) "bob" None)
                  (resolves (Description "offer of alice"));
                TrackEvent 0 7;
                Signaling (message leave Empty "bob" None)
                  (resolves (Description "unused"))] initial).1.
Proof.
  apply (X9_audio_elements_have_sessions alice); [reflexivity| | |].
  - exact sessions_open_initial.
  - exact connections_owned_initial.
  - exact audios_owned_initial.
Defined.

(** Alice joins, leaves and joins again: the stream of the first call
    is stopped and the one of the second is held. *)
Lemma X10_alice_joins_twice :
  media_wf
    (run alice [JoinCall (resolves (Description "unused")); LeaveCall;
                JoinCall (resolves (Description "unused"))] initial).1.
Proof. apply (X10_capture_streams_are_released alice). exact media_wf_initial. Defined.

(** Alice fails to offer to bob: the retry that is pending is an attempt
    within the bound, and makes a new connection when it fires. *)
Lemma X11_the_retry_of_alice :
  let st' := (run alice [JoinCall (resolves (Description "unused"));
                         Signaling (message join (JoinInfo false) "bob" None) rejects]
                initial).1 in
  Forall (retry_wf alice) (timers st') ∧
  (∀ i cl p k o, timers st' !! i = Some (RetryJoin cl p k) →
     k ≤ 2 ∧
     length (conns (step alice (TimerFired i o) st').1) = S (length (conns st'))).
Proof.
  cbv zeta. apply (X11_retries_are_bounded_and_blind alice). constructor.
Defined.

(** Alice leaves while her retry for bob is pending: when it fires she
    offers to bob although she has left. *)
Lemma X12_alice_offers_after_leaving :
  let st1 := (leaveCall alice aliceRetrying).1 in
  (step alice (TimerFired 0 (resolves (Description "late offer"))) st1).2 =
    [message offer (Description "late offer") "alice" (Some "bob")].
Proof.
  cbv zeta.
  destruct (X12_retry_outlives_the_call alice 0 (committed (inCall alice)) "bob" 1
              (resolves (Description "late offer")) (Description "late offer")
              aliceRetrying eq_refl eq_refl) as (_ & _ & _ & _ & Hout); [|done|].
  - split_and!; [done|lia|done|by eexists].
  - exact Hout.
Defined.


(** Alice joins and leaves at once: her stream is stopped. *)
Lemma X15_alice_joins_and_leaves :
  let r := run alice [JoinCall (resolves (Description "unused")); LeaveCall] initial in
  r.2 = [message join (JoinInfo true) "alice" None; message leave Empty "alice" None] ∧
  localStream r.1 = None ∧
  streams r.1 = [[ {| audio := true; enabled := true; stopped := true |} ]].
Proof.
  cbv zeta.
  destruct (X15_join_then_leave alice (resolves (Description "unused"))
              [ {| audio := true; enabled := true; stopped := false |} ]
              initial eq_refl eq_refl eq_refl eq_refl)
    as (Hout & _ & Hl & Hs & _).
  by split_and!.
Defined.


(** Alice, who has started a call alone, is sent an answer by bob, to
    whom she never offered: bob gets a connection. *)
Lemma X21_an_answer_of_bob_makes_a_connection :
  let st := (WebRTC.startCall aliceOnTable ["alice"] (resolves (Description "unused")) []
               WebRTC.initial).1.1 in
  let st' := (WebRTC.deliver aliceOnTable
                (row answer (Description "answer of bob") "bob" "alice")
                (resolves (Description "unused")) st).1 in
  WebRTC.peerConnections st' !! "bob" = Some 0 ∧ length (WebRTC.conns st') = 1.
Proof.
  cbv zeta.
  exact (X21_every_row_has_a_connection aliceOnTable None
           (row answer (Description "answer of bob") "bob" "alice")
           (resolves (Description "unused"))
           (WebRTC.startCall aliceOnTable ["alice"] (resolves (Description "unused")) []
              WebRTC.initial).1.1 eq_refl eq_refl).
Defined.

(** Alice offers to bob, receives a track of bob, and the connection
    then fails: the users reported are those with a stream. *)
Lemma X23_alice_reports_bob_with_a_stream :
  streams_reported
    (WebRTC.run aliceOnTable
       [WebRTC.StartCall ["alice"; "bob"] (resolves (Description "unused"))
          [Some (Description "offer to bob")];
        WebRTC.TrackEvent 0 7;
        WebRTC.ConnectionStateChange 0 cs_failed] WebRTC.initial).1.
Proof.
  apply (X23_connected_peers_have_streams aliceOnTable). exact streams_reported_initial.
Defined.
